(** * A shallow embedding of the DDPG learning core of DRL-CollaborateCompete

    Two source files share one design: [src/ddpg_agent.py] (per-agent noise,
    module-level buffer and batch sizes, exploration rate) and
    [src/ddpg_agent_updated.py] (one shared noise process, configurable buffer
    and batch sizes).  Numbers are modelled as rationals [Q]; tensors are
    flattened to [list Q].  The neural networks of [model.py] and the Adam
    optimiser are opaque collaborators: they are the fields of the class
    [Approximators], an argument of every definition that uses them.

    PyTorch parameters are shared mutable objects: the optimisers and the
    [soft_update]/[hard_update] loops write into the tensors owned by the
    networks.  They are modelled by one parameter store (a list of tensors
    indexed by slot), each network being the ordered list of the slots that
    its [parameters()] iterator yields. *)

From Stdlib Require Import List ZArith QArith Qminmax Qfield Qpower Lia Psatz Bool.
Import ListNotations.

Open Scope Q_scope.

(** ** Python results: a small error monad *)

Inductive PyError := ZeroDivisionError | ValueError | IndexError.

Inductive result (A : Type) := Ok (a : A) | Err (e : PyError).
Arguments Ok {A} a.
Arguments Err {A} e.

Definition bind {A B} (r : result A) (k : A -> result B) : result B :=
  match r with Ok a => k a | Err e => Err e end.

Notation "x <- r ;; k" := (bind r (fun x => k))
  (at level 61, r at next level, right associativity).

Definition is_ok {A} (r : result A) : bool :=
  match r with Ok _ => true | Err _ => false end.

(** Python's [%] on ints: floor modulo, raising on a zero divisor. *)
Definition py_mod (a b : Z) : result Z :=
  if (b =? 0)%Z then Err ZeroDivisionError else Ok (Z.modulo a b).

(** ** Tensors and the parameter store *)

Definition tensor := list Q.

Definition vadd (u v : list Q) : list Q := map (fun '(a, b) => a + b) (combine u v).
Definition vsub (u v : list Q) : list Q := map (fun '(a, b) => a - b) (combine u v).
Definition vscale (c : Q) (u : list Q) : list Q := map (fun a => c * a) u.

Definition store := list tensor.

Definition get (s : store) (i : nat) : tensor := nth i s [].

Fixpoint set_nth (i : nat) (x : tensor) (s : store) : store :=
  match s, i with
  | [], _ => []
  | _ :: s', O => x :: s'
  | y :: s', S i' => y :: set_nth i' x s'
  end.

Definition net_params (s : store) (ids : list nat) : list tensor := map (get s) ids.

(** [for p, g in zip(ids, values): p.data.copy_(g)]: write tensors back
    into the slots of a network, in order. *)
Fixpoint write_params (ids : list nat) (vs : list tensor) (s : store) : store :=
  match ids, vs with
  | i :: ids', v :: vs' => write_params ids' vs' (set_nth i v s)
  | _, _ => s
  end.

(** [Agent.soft_update(local_model, target_model, tau)]:
    [for target_param, local_param in zip(target.parameters(), local.parameters()):
       target_param.data.copy_(tau*local_param.data + (1.0-tau)*target_param.data)] *)
Definition blend (tau : Q) (l t : tensor) : tensor :=
  vadd (vscale tau l) (vscale (1 - tau) t).

Fixpoint soft_update_slots (tau : Q) (targets locals : list nat) (s : store) : store :=
  match targets, locals with
  | t :: ts, l :: ls =>
      soft_update_slots tau ts ls (set_nth t (blend tau (get s l) (get s t)) s)
  | _, _ => s
  end.

Definition soft_update (local target : list nat) (tau : Q) (s : store) : store :=
  soft_update_slots tau target local s.

(** [Agent.hard_update(target_model, local_model)]:
    [target_param.data.copy_(local_param.data)] along the zip. *)
Fixpoint hard_update_slots (targets locals : list nat) (s : store) : store :=
  match targets, locals with
  | t :: ts, l :: ls => hard_update_slots ts ls (set_nth t (get s l) s)
  | _, _ => s
  end.

Definition hard_update (target local : list nat) (s : store) : store :=
  hard_update_slots target local s.

(** Module constants shared by both files. *)
Definition TAU : Q := 1 # 1000.
Definition GAMMA : Q := 99 # 100.
Definition BUFFER_SIZE : Z := 100000.
Definition LEARNING_RATE : Z := 10.
Definition TIME_UPDATE : Z := 10.

(** ** Python's [random] module

    The module-level generator is shared by the noise processes
    ([random.random()]) and the replay buffer ([random.sample]).  It is a
    stream of draws; the agent keeps its current position. *)

Class PyRandom := {
  (** [random.random()] at a stream position: a float in [[0,1)] *)
  random_float : nat -> Q;
  random_float_range : forall p, 0 <= random_float p /\ random_float p < 1;
  (** a uniform integer in [[0, m)] drawn at a stream position ([_randbelow]) *)
  randbelow : nat -> nat -> nat;
  randbelow_lt : forall p m, (0 < m)%nat -> (randbelow p m < m)%nat
}.

(** The ordered selections of [k] distinct elements of [avail]: the
    outcomes among which [random.sample] chooses uniformly. *)
Fixpoint arrangements (k : nat) (avail : list nat) : list (list nat) :=
  match k with
  | O => [[]]
  | S k' =>
      flat_map (fun i => map (cons i) (arrangements k' (remove Nat.eq_dec i avail))) avail
  end.

(** [random.sample(population, k)]: [ValueError] unless [0 <= k <= len];
    otherwise [k] elements at distinct positions, the positions being one
    uniformly chosen ordered selection of [k] positions.  The library call is
    modelled by this contract (one uniform draw among the selections). *)
Definition sample_positions `{PyRandom} (p : nat) (n : nat) (k : Z) : result (list nat) :=
  if ((k <? 0)%Z || (Z.of_nat n <? k)%Z)%bool then Err ValueError
  else
    let arrs := arrangements (Z.to_nat k) (seq 0 n) in
    Ok (nth (randbelow p (length arrs)) arrs []).

Definition random_sample `{PyRandom} {A} (d : A) (p : nat) (pop : list A) (k : Z)
  : result (list A * nat) :=
  ix <- sample_positions p (length pop) k ;;
  Ok (map (fun i => nth i pop d) ix, S p).

(** ** Replay buffer *)

(** [namedtuple("Experience", ["state", "action", "reward", "next_state", "done"])] *)
Record Experience := mkExperience {
  e_state : list Q;
  e_action : list Q;
  e_reward : Q;
  e_next_state : list Q;
  e_done : bool
}.

Definition experience0 : Experience := mkExperience [] [] 0 [] false.

(** [collections.deque(maxlen=m).append(x)]: when the deque already holds
    [m] items the leftmost one is discarded. *)
Definition deque_append {A} (maxlen : Z) (d : list A) (x : A) : list A :=
  if (Z.of_nat (length d) <? maxlen)%Z then d ++ [x] else tl (d ++ [x]).

Definition deque_extend {A} (maxlen : Z) (d : list A) (xs : list A) : list A :=
  fold_left (deque_append maxlen) xs d.

Record ReplayBuffer := mkReplayBuffer {
  rb_action_size : Z;
  rb_memory : list Experience;
  rb_maxlen : Z;
  rb_batch_size : Z;
  rb_num_agents : Z
}.

(** [ReplayBuffer.__init__]: [deque(maxlen=buffer_size)] raises
    [ValueError] for a negative [maxlen]. *)
Definition ReplayBuffer_init (action_size buffer_size batch_size num_agents : Z)
  : result ReplayBuffer :=
  if (buffer_size <? 0)%Z then Err ValueError
  else Ok (mkReplayBuffer action_size [] buffer_size batch_size num_agents).

Definition rb_set_memory (b : ReplayBuffer) (m : list Experience) : ReplayBuffer :=
  mkReplayBuffer (rb_action_size b) m (rb_maxlen b) (rb_batch_size b) (rb_num_agents b).

Definition rb_len (b : ReplayBuffer) : Z := Z.of_nat (length (rb_memory b)).

(** [self.memory.append(e)] *)
Definition rb_append (b : ReplayBuffer) (e : Experience) : ReplayBuffer :=
  rb_set_memory b (deque_append (rb_maxlen b) (rb_memory b) e).

(** The five stacked arrays returned by [ReplayBuffer.sample]. *)
Record Batch := mkBatch {
  b_states : list (list Q);
  b_actions : list (list Q);
  b_rewards : list Q;
  b_next_states : list (list Q);
  b_dones : list Q
}.

(** [np.vstack(...).astype(np.uint8)] then [.float()] on a boolean flag *)
Definition done_to_float (d : bool) : Q := if d then 1 else 0.

(** [np.vstack] of one-dimensional rows: each row is read as a [1 x len]
    array, and the concatenation raises [ValueError] on an empty list and on
    rows of different lengths. *)
Definition np_vstack (rows : list (list Q)) : result (list (list Q)) :=
  match rows with
  | [] => Err ValueError
  | r :: _ =>
      if forallb (fun r' => Nat.eqb (length r') (length r)) rows then Ok rows
      else Err ValueError
  end.

(** [np.vstack] of scalars: one column; only the empty list raises. *)
Definition np_vstack_scalars (xs : list Q) : result (list Q) :=
  match xs with
  | [] => Err ValueError
  | _ => Ok xs
  end.

(** The five [np.vstack] calls of [ReplayBuffer.sample], in order. *)
Definition stack_experiences (experiences : list Experience) : result Batch :=
  states <- np_vstack (map e_state experiences) ;;
  actions <- np_vstack (map e_action experiences) ;;
  rewards <- np_vstack_scalars (map e_reward experiences) ;;
  next_states <- np_vstack (map e_next_state experiences) ;;
  dones <- np_vstack_scalars (map (fun e => done_to_float (e_done e)) experiences) ;;
  Ok (mkBatch states actions rewards next_states dones).

(** [ReplayBuffer.sample]: [random.sample(self.memory, k=self.batch_size)]
    followed by the five [np.vstack]. *)
Definition rb_sample `{PyRandom} (b : ReplayBuffer) (p : nat) : result (Batch * nat) :=
  r <- random_sample experience0 p (rb_memory b) (rb_batch_size b) ;;
  let '(experiences, p') := r in
  bt <- stack_experiences experiences ;;
  Ok (bt, p').

(** ** Ornstein-Uhlenbeck noise *)

Record OUNoise := mkOUNoise {
  ou_mu : list Q;
  ou_theta : Q;
  ou_sigma : Q;
  ou_state : list Q
}.

(** [np.ones(size)] raises [ValueError] on a negative size. *)
Definition np_ones (size : Z) : result (list Q) :=
  if (size <? 0)%Z then Err ValueError else Ok (repeat 1 (Z.to_nat size)).

(** [OUNoise.reset]: [self.state = copy.copy(self.mu)] *)
Definition ou_reset (o : OUNoise) : OUNoise :=
  mkOUNoise (ou_mu o) (ou_theta o) (ou_sigma o) (ou_mu o).

(** [OUNoise.__init__]: [self.mu = mu * np.ones(size)], then [reset()]. *)
Definition OUNoise_init (size : Z) (mu theta sigma : Q) : result OUNoise :=
  ones <- np_ones size ;;
  Ok (ou_reset (mkOUNoise (vscale mu ones) theta sigma [])).

(** [OUNoise.sample]:
    [x = self.state;
     dx = self.theta * (self.mu - x) + self.sigma * np.array([random.random() for i in range(len(x))]);
     self.state = x + dx; return self.state] *)
Definition ou_sample `{PyRandom} (o : OUNoise) (p : nat) : list Q * OUNoise * nat :=
  let x := ou_state o in
  let xi := map random_float (seq p (length x)) in
  let dx := vadd (vscale (ou_theta o) (vsub (ou_mu o) x)) (vscale (ou_sigma o) xi) in
  let st := vadd x dx in
  (st, mkOUNoise (ou_mu o) (ou_theta o) (ou_sigma o) st, p + length x)%nat.

(** ** The networks and their optimisers (collaborators from [model.py] and [torch.optim]) *)

Class Approximators := {
  (** [Actor.forward] in evaluation mode on one row, given the network's parameters *)
  actor_forward : list tensor -> list Q -> list Q;
  (** [Critic.forward(state, action)] on one row *)
  critic_forward : list tensor -> list Q -> list Q -> Q;
  (** gradient of [F.mse_loss(critic_local(states, actions), Q_targets)]
      with respect to the critic-local parameters *)
  critic_loss_grad : list tensor -> list (list Q) -> list (list Q) -> list Q -> list tensor;
  (** gradient of [-critic_local(states, actor_local(states)).mean()] with
      respect to the actor-local parameters, given actor and critic parameters *)
  actor_loss_grad : list tensor -> list tensor -> list (list Q) -> list tensor;
  (** one [Adam.step()]: learning rate, weight decay, moment buffers,
      parameters and gradients to new parameters and new moment buffers *)
  adam_step : Q -> Q -> list tensor -> list tensor -> list tensor -> list tensor * list tensor;
  (** [Actor(state_size, action_size, seed)] and [Critic(...)]: initial
      parameters, threading the position of torch's global generator *)
  actor_init : Z -> Z -> Z -> nat -> list tensor * nat;
  critic_init : Z -> Z -> Z -> nat -> list tensor * nat
}.

(** An optimiser holds the parameter objects it was built with
    ([optim.Adam(model.parameters(), ...)]). *)
Record Optimizer := mkOptimizer {
  opt_slots : list nat;
  opt_lr : Q;
  opt_weight_decay : Q;
  opt_moments : list tensor
}.

(** [optimizer.zero_grad(); loss.backward(); optimizer.step()]: the gradient
    is computed afresh (zero_grad clears what an earlier backward left), and
    the step writes only into the optimiser's own parameter slots. *)
Definition opt_step `{Approximators} (o : Optimizer) (grads : list tensor) (s : store)
  : Optimizer * store :=
  let '(ps', m') := adam_step (opt_lr o) (opt_weight_decay o) (opt_moments o)
                              (net_params s (opt_slots o)) grads in
  (mkOptimizer (opt_slots o) (opt_lr o) (opt_weight_decay o) m',
   write_params (opt_slots o) ps' s).

(** [optim.Adam(params, lr=lr, weight_decay=weight_decay)] (default [eps]
    and [betas]): [ValueError] for a negative learning rate ("Invalid
    learning rate"), a negative weight decay ("Invalid weight_decay value")
    and an empty parameter list. *)
Definition optim_Adam (slots : list nat) (lr weight_decay : Q) : result Optimizer :=
  if negb (Qle_bool 0 lr) then Err ValueError
  else if negb (Qle_bool 0 weight_decay) then Err ValueError
  else match slots with
       | [] => Err ValueError
       | _ => Ok (mkOptimizer slots lr weight_decay [])
       end.

(** The four networks of an agent and their two optimisers. *)
Record Nets := mkNets {
  params : store;
  actor_local : list nat;
  actor_target : list nat;
  critic_local : list nat;
  critic_target : list nat;
  actor_optimizer : Optimizer;
  critic_optimizer : Optimizer
}.

Definition set_params (n : Nets) (s : store) : Nets :=
  mkNets s (actor_local n) (actor_target n) (critic_local n) (critic_target n)
         (actor_optimizer n) (critic_optimizer n).

(** Network construction in [Agent.__init__]:
    [actor_local = Actor(...)], [actor_target = Actor(...)],
    [actor_optimizer = optim.Adam(actor_local.parameters(), lr=lr_actor)],
    [critic_local = Critic(...)], [critic_target = Critic(...)],
    [critic_optimizer = optim.Adam(critic_local.parameters(), lr=lr_critic, weight_decay=weight_decay)].
    Each network gets fresh slots in the store. *)
Definition build_nets `{Approximators} (state_size action_size seed : Z)
    (lr_actor lr_critic weight_decay : Q) (g : nat) : result (Nets * nat) :=
  let '(al, g1) := actor_init state_size action_size seed g in
  let '(atg, g2) := actor_init state_size action_size seed g1 in
  let a1 := length al in
  aopt <- optim_Adam (seq 0 a1) lr_actor 0 ;;
  let '(cl, g3) := critic_init state_size action_size seed g2 in
  let '(ct, g4) := critic_init state_size action_size seed g3 in
  let a2 := (a1 + length atg)%nat in
  let a3 := (a2 + length cl)%nat in
  copt <- optim_Adam (seq a2 (length cl)) lr_critic weight_decay ;;
  Ok (mkNets (al ++ atg ++ cl ++ ct)
             (seq 0 a1) (seq a1 (length atg)) (seq a2 (length cl)) (seq a3 (length ct))
             aopt copt, g4).

(** ** [Agent.learn], shared by both files *)

(** [Q_targets = rewards + (gamma * Q_targets_next * (1 - dones))] *)
Definition td_targets (gamma : Q) (rewards q_next dones : list Q) : list Q :=
  map (fun '(r, (q, d)) => r + gamma * q * (1 - d)) (combine rewards (combine q_next dones)).

(** [actions_next = self.actor_target(next_states)];
    [Q_targets_next = self.critic_target(next_states, actions_next)];
    then the TD targets. *)
Definition learn_q_targets `{Approximators} (n : Nets) (b : Batch) (gamma : Q) : list Q :=
  let actions_next := map (actor_forward (net_params (params n) (actor_target n)))
                          (b_next_states b) in
  let q_targets_next :=
    map (fun '(ns, an) => critic_forward (net_params (params n) (critic_target n)) ns an)
        (combine (b_next_states b) actions_next) in
  td_targets gamma (b_rewards b) q_targets_next (b_dones b).

(** "update critic": one critic-optimiser step on the MSE loss. *)
Definition critic_update `{Approximators} (n : Nets) (b : Batch) (q_targets : list Q) : Nets :=
  let grads := critic_loss_grad (net_params (params n) (critic_local n))
                                (b_states b) (b_actions b) q_targets in
  let '(o', s') := opt_step (critic_optimizer n) grads (params n) in
  mkNets s' (actor_local n) (actor_target n) (critic_local n) (critic_target n)
         (actor_optimizer n) o'.

(** "update actor": one actor-optimiser step on
    [actor_loss = -self.critic_local(states, self.actor_local(states)).mean()]. *)
Definition actor_update `{Approximators} (n : Nets) (b : Batch) : Nets :=
  let grads := actor_loss_grad (net_params (params n) (actor_local n))
                               (net_params (params n) (critic_local n)) (b_states b) in
  let '(o', s') := opt_step (actor_optimizer n) grads (params n) in
  mkNets s' (actor_local n) (actor_target n) (critic_local n) (critic_target n)
         o' (critic_optimizer n).

(** The network part of [Agent.learn(experiences, gamma)]: critic step,
    actor step, then [self.soft_update(self.critic_local, self.critic_target, TAU)]
    and [self.soft_update(self.actor_local, self.actor_target, TAU)] with the
    module constant [TAU]. *)
Definition learn_nets `{Approximators} (n : Nets) (b : Batch) (gamma : Q) : Nets :=
  let q_targets := learn_q_targets n b gamma in
  let n1 := critic_update n b q_targets in
  let n2 := actor_update n1 b in
  let n3 := set_params n2 (soft_update (critic_local n2) (critic_target n2) TAU (params n2)) in
  set_params n3 (soft_update (actor_local n3) (actor_target n3) TAU (params n3)).

(** [np.clip(x, -1, 1)] *)
Definition np_clip (lo hi x : Q) : Q := Qmin (Qmax x lo) hi.

Fixpoint mapM {A B} (f : A -> result B) (l : list A) : result (list B) :=
  match l with
  | [] => Ok []
  | x :: l' => y <- f x ;; ys <- mapM f l' ;; Ok (y :: ys)
  end.

(** The per-agent rows [states[i], actions[i], ...] for [i in range(num_agents)];
    a missing row raises [IndexError]. *)
Definition agent_rows (num_agents : Z) (exps : list Experience) : result (list Experience) :=
  mapM (fun i => match nth_error exps i with Some e => Ok e | None => Err IndexError end)
       (seq 0 (Z.to_nat num_agents)).

(** The same rows appended one by one as the loop does it: a missing row
    raises [IndexError], and the rows appended before it stay in the deque.
    The buffer after the loop and the exception raised, if any. *)
Fixpoint append_rows (b : ReplayBuffer) (exps : list Experience) (ix : list nat)
  : ReplayBuffer * option PyError :=
  match ix with
  | [] => (b, None)
  | i :: ix' =>
      match nth_error exps i with
      | Some e => append_rows (rb_append b e) exps ix'
      | None => (b, Some IndexError)
      end
  end.

(** ** [src/ddpg_agent.py] *)

Module DDPGAgent.

Definition BATCH_SIZE : Z := 512.
Definition EPS_MIN : Q := 1 # 10.
Definition EPS_MAX : Q := 1.
Definition EPS_DECAY : Q := 0.

(** The constructor's arguments. *)
Record Config := mkConfig {
  cfg_num_agents : Z; cfg_state_size : Z; cfg_action_size : Z; cfg_random_seed : Z;
  cfg_gamma : Q; cfg_tau : Q; cfg_lr_actor : Q; cfg_lr_critic : Q; cfg_weight_decay : Q;
  cfg_mu : Q; cfg_theta : Q; cfg_sigma : Q;
  cfg_learn_rate : Z; cfg_time_update : Z;
  cfg_eps_max : Q; cfg_eps_min : Q; cfg_eps_decay : Q
}.

(** The attributes of [Agent]; [rng] is the position of Python's global
    generator, [torch_gen] that of torch's. *)
Record Agent := mkAgent {
  cfg : Config;
  nets : Nets;
  noise : list OUNoise;
  memory : ReplayBuffer;
  eps : Q;
  rng : nat;
  torch_gen : nat
}.

Definition gamma (a : Agent) := cfg_gamma (cfg a).
Definition tau (a : Agent) := cfg_tau (cfg a).
Definition learning_rate (a : Agent) := cfg_learn_rate (cfg a).
Definition time_update (a : Agent) := cfg_time_update (cfg a).
Definition num_agents (a : Agent) := cfg_num_agents (cfg a).

Definition with_nets (a : Agent) (n : Nets) : Agent :=
  mkAgent (cfg a) n (noise a) (memory a) (eps a) (rng a) (torch_gen a).
Definition with_memory (a : Agent) (m : ReplayBuffer) : Agent :=
  mkAgent (cfg a) (nets a) (noise a) m (eps a) (rng a) (torch_gen a).
Definition with_rng (a : Agent) (p : nat) : Agent :=
  mkAgent (cfg a) (nets a) (noise a) (memory a) (eps a) p (torch_gen a).

(** [Agent.__init__]: networks and optimisers, one [OUNoise] per agent,
    [ReplayBuffer(action_size, BUFFER_SIZE, BATCH_SIZE, random_seed, num_agents)],
    then [hard_update] of both target networks.  [p] is the position of
    Python's generator after [random.seed(random_seed)], [g] that of torch's. *)
Definition Agent_init `{Approximators} (c : Config) (p g : nat) : result Agent :=
  r <- build_nets (cfg_state_size c) (cfg_action_size c) (cfg_random_seed c)
                  (cfg_lr_actor c) (cfg_lr_critic c) (cfg_weight_decay c) g ;;
  let '(n, g') := r in
  ns <- mapM (fun _ => OUNoise_init (cfg_action_size c) (cfg_mu c) (cfg_theta c) (cfg_sigma c))
             (seq 0 (Z.to_nat (cfg_num_agents c))) ;;
  mem <- ReplayBuffer_init (cfg_action_size c) BUFFER_SIZE BATCH_SIZE (cfg_num_agents c) ;;
  let s1 := hard_update (actor_target n) (actor_local n) (params n) in
  let s2 := hard_update (critic_target n) (critic_local n) s1 in
  Ok (mkAgent c (set_params n s2) ns mem (cfg_eps_max c) p g').

(** [ReplayBuffer.add(states, actions, rewards, next_states, dones)]:
    one [Experience] per agent, appended in order. *)
Definition add (b : ReplayBuffer) (exps : list Experience) : result ReplayBuffer :=
  es <- agent_rows (rb_num_agents b) exps ;;
  Ok (fold_left rb_append es b).

(** [Agent.learn(experiences, gamma)] including the epsilon decay
    [self.eps = max(self.eps - self.eps_decay, self.eps_min)]. *)
Definition learn `{Approximators} (a : Agent) (b : Batch) (g : Q) : Agent :=
  mkAgent (cfg a) (learn_nets (nets a) b g) (noise a) (memory a)
          (Qmax (eps a - cfg_eps_decay (cfg a)) (cfg_eps_min (cfg a))) (rng a) (torch_gen a).

(** [for i in range(self.learning_rate):
       experiences = self.memory.sample(); self.learn(experiences, self.gamma)]
    in the error monad: the agent after [k] phases, or the first exception
    (the partially updated agent is kept by [learn_loop] below). *)
Fixpoint learn_updates `{Approximators} `{PyRandom} (k : nat) (a : Agent) : result Agent :=
  match k with
  | O => Ok a
  | S k' =>
      r <- rb_sample (memory a) (rng a) ;;
      let '(experiences, p') := r in
      learn_updates k' (learn (with_rng a p') experiences (gamma a))
  end.

(** The loop [for i in range(self.learning_rate): experiences =
    self.memory.sample(); self.learn(experiences, self.gamma)] as it mutates
    the agent: the agent after the loop and the exception raised, if any.
    A phase whose [random.sample] raises leaves the generator where it was;
    one whose [np.vstack] raises leaves it after the draw; the phases before
    keep their effects. *)
Fixpoint learn_loop `{Approximators} `{PyRandom} (k : nat) (a : Agent) : Agent * option PyError :=
  match k with
  | O => (a, None)
  | S k' =>
      match random_sample experience0 (rng a) (rb_memory (memory a)) (rb_batch_size (memory a)) with
      | Err e => (a, Some e)
      | Ok (experiences, p') =>
          match stack_experiences experiences with
          | Err e => (with_rng a p', Some e)
          | Ok bt => learn_loop k' (learn (with_rng a p') bt (gamma a))
          end
      end
  end.

(** [Agent.step(time_step, states, actions, rewards, next_states, dones)]:
    the agent after the call and the exception raised, if any; what was
    mutated before an exception stays mutated. *)
Definition step `{Approximators} `{PyRandom} (a : Agent) (time_step : Z)
    (exps : list Experience) : Agent * option PyError :=
  let '(mem, e) := append_rows (memory a) exps (seq 0 (Z.to_nat (rb_num_agents (memory a)))) in
  let a1 := with_memory a mem in
  match e with
  | Some err => (a1, Some err)
  | None =>
      match py_mod time_step (time_update a) with
      | Err err => (a1, Some err)
      | Ok r =>
          if (r >? 0)%Z then (a1, None)
          else if (BATCH_SIZE <? rb_len mem)%Z
               then learn_loop (Z.to_nat (learning_rate a)) a1
               else (a1, None)
      end
  end.

(** [for i in range(self.num_agents): action += self.noise[i].sample()]:
    each sample is broadcast over every row of [action]. *)
Fixpoint add_noise_loop `{PyRandom} (ns : list OUNoise) (action : list (list Q)) (p : nat)
  : list (list Q) * list OUNoise * nat :=
  match ns with
  | [] => (action, [], p)
  | o :: ns' =>
      let '(v, o', p1) := ou_sample o p in
      let '(action', ns'', p2) := add_noise_loop ns' (map (fun row => vadd row v) action) p1 in
      (action', o' :: ns'', p2)
  end.

(** [Agent.act(state, add_noise)]: the actor-local network on every row of
    [state] without gradients, optional noise, then [np.clip(action, -1, 1)]. *)
Definition act `{Approximators} `{PyRandom} (a : Agent) (state : list (list Q)) (add_noise : bool)
  : list (list Q) * Agent :=
  let n := nets a in
  let action := map (actor_forward (net_params (params n) (actor_local n))) state in
  let '(action', ns', p') :=
    if add_noise then add_noise_loop (noise a) action (rng a) else (action, noise a, rng a) in
  (map (map (np_clip (-1) 1)) action',
   mkAgent (cfg a) n ns' (memory a) (eps a) p' (torch_gen a)).

(** [Agent.reset] *)
Definition reset (a : Agent) : Agent :=
  mkAgent (cfg a) (nets a) (map ou_reset (noise a)) (memory a) (eps a) (rng a) (torch_gen a).

End DDPGAgent.

(** ** [src/ddpg_agent_updated.py] *)

Module DDPGAgentUpdated.

Definition BATCH_SIZE : Z := 256.

(** The constructor's arguments. *)
Record Config := mkConfig {
  cfg_num_agents : Z; cfg_state_size : Z; cfg_action_size : Z; cfg_random_seed : Z;
  cfg_gamma : Q; cfg_tau : Q; cfg_lr_actor : Q; cfg_lr_critic : Q; cfg_weight_decay : Q;
  cfg_mu : Q; cfg_theta : Q; cfg_sigma : Q;
  cfg_learn_rate : Z; cfg_time_update : Z;
  cfg_batch_size : Z; cfg_buffer_size : Z
}.

Record Agent := mkAgent {
  cfg : Config;
  nets : Nets;
  noise : OUNoise;
  memory : ReplayBuffer;
  rng : nat;
  torch_gen : nat
}.

Definition gamma (a : Agent) := cfg_gamma (cfg a).
Definition tau (a : Agent) := cfg_tau (cfg a).
Definition learning_rate (a : Agent) := cfg_learn_rate (cfg a).
Definition time_update (a : Agent) := cfg_time_update (cfg a).
Definition num_agents (a : Agent) := cfg_num_agents (cfg a).
Definition action_size (a : Agent) := cfg_action_size (cfg a).
Definition batch_size (a : Agent) := cfg_batch_size (cfg a).

Definition with_memory (a : Agent) (m : ReplayBuffer) : Agent :=
  mkAgent (cfg a) (nets a) (noise a) m (rng a) (torch_gen a).
Definition with_rng (a : Agent) (p : nat) : Agent :=
  mkAgent (cfg a) (nets a) (noise a) (memory a) p (torch_gen a).

(** [Agent.__init__]: networks and optimisers,
    [OUNoise(action_size, random_seed, num_agents, ...)] (a single process of
    [action_size] coordinates; [num_agents] is only stored) and
    [ReplayBuffer(action_size, self.buffer_size, self.batch_size, ...)].
    No [hard_update] is called. *)
Definition Agent_init `{Approximators} (c : Config) (p g : nat) : result Agent :=
  r <- build_nets (cfg_state_size c) (cfg_action_size c) (cfg_random_seed c)
                  (cfg_lr_actor c) (cfg_lr_critic c) (cfg_weight_decay c) g ;;
  let '(n, g') := r in
  o <- OUNoise_init (cfg_action_size c) (cfg_mu c) (cfg_theta c) (cfg_sigma c) ;;
  mem <- ReplayBuffer_init (cfg_action_size c) (cfg_buffer_size c) (cfg_batch_size c)
                           (cfg_num_agents c) ;;
  Ok (mkAgent c n o mem p g').

(** [Agent.learn(experiences, gamma)] ([print] apart). *)
Definition learn `{Approximators} (a : Agent) (b : Batch) (g : Q) : Agent :=
  mkAgent (cfg a) (learn_nets (nets a) b g) (noise a) (memory a) (rng a) (torch_gen a).

(** The learning loop of [step] in the error monad, as in [ddpg_agent.py]. *)
Fixpoint learn_updates `{Approximators} `{PyRandom} (k : nat) (a : Agent) : result Agent :=
  match k with
  | O => Ok a
  | S k' =>
      r <- rb_sample (memory a) (rng a) ;;
      let '(experiences, p') := r in
      learn_updates k' (learn (with_rng a p') experiences (gamma a))
  end.

(** The learning loop of [step], as in [ddpg_agent.py]. *)
Fixpoint learn_loop `{Approximators} `{PyRandom} (k : nat) (a : Agent) : Agent * option PyError :=
  match k with
  | O => (a, None)
  | S k' =>
      match random_sample experience0 (rng a) (rb_memory (memory a)) (rb_batch_size (memory a)) with
      | Err e => (a, Some e)
      | Ok (experiences, p') =>
          match stack_experiences experiences with
          | Err e => (with_rng a p', Some e)
          | Ok bt => learn_loop k' (learn (with_rng a p') bt (gamma a))
          end
      end
  end.

(** [Agent.step]: [for i in range(self.num_agents): self.memory.add(states[i,:], ...)],
    where [ReplayBuffer.add] appends one [Experience]; then the cadence test
    and [len(self.memory) > self.batch_size].  The agent after the call and
    the exception raised, if any. *)
Definition step `{Approximators} `{PyRandom} (a : Agent) (time_step : Z)
    (exps : list Experience) : Agent * option PyError :=
  let '(mem, e) := append_rows (memory a) exps (seq 0 (Z.to_nat (num_agents a))) in
  let a1 := with_memory a mem in
  match e with
  | Some err => (a1, Some err)
  | None =>
      match py_mod time_step (time_update a) with
      | Err err => (a1, Some err)
      | Ok r =>
          if (r >? 0)%Z then (a1, None)
          else if (batch_size a <? rb_len mem)%Z
               then learn_loop (Z.to_nat (learning_rate a)) a1
               else (a1, None)
      end
  end.

(** [actions = np.zeros((self.num_agents, self.action_size))] filled row by
    row by [actions[agent_num, :] = action] over [enumerate(states)]. *)
Definition actor_rows `{Approximators} (a : Agent) (states : list (list Q))
  : result (list (list Q)) :=
  if ((num_agents a <? 0)%Z || (action_size a <? 0)%Z)%bool then Err ValueError
  else
    let k := Z.to_nat (num_agents a) in
    if (k <? length states)%nat then Err IndexError
    else
      let n := nets a in
      Ok (map (actor_forward (net_params (params n) (actor_local n))) states
          ++ repeat (repeat 0 (Z.to_nat (action_size a))) (k - length states)).

(** [Agent.act(states, add_noise)]: [actions += self.noise.sample()]
    broadcasts the one sample over every row, then [np.clip(actions, -1, 1)]. *)
Definition act `{Approximators} `{PyRandom} (a : Agent) (states : list (list Q)) (add_noise : bool)
  : result (list (list Q) * Agent) :=
  actions <- actor_rows a states ;;
  if add_noise then
    let '(v, o', p') := ou_sample (noise a) (rng a) in
    Ok (map (map (np_clip (-1) 1)) (map (fun row => vadd row v) actions),
        mkAgent (cfg a) (nets a) o' (memory a) p' (torch_gen a))
  else Ok (map (map (np_clip (-1) 1)) actions, a).

(** [Agent.reset] *)
Definition reset (a : Agent) : Agent :=
  mkAgent (cfg a) (nets a) (ou_reset (noise a)) (memory a) (rng a) (torch_gen a).

End DDPGAgentUpdated.


(** ** Derived notions used in the statements *)

(** [k] successive [OUNoise.sample()] calls. *)
Fixpoint ou_sample_n `{PyRandom} (k : nat) (o : OUNoise) (p : nat) : OUNoise * nat :=
  match k with
  | O => (o, p)
  | S k' => let '(_, o', p') := ou_sample o p in ou_sample_n k' o' p'
  end.

(** The slots of the four networks are pairwise distinct, and each optimiser
    holds the slots of its local network. *)
Definition nets_wf (n : Nets) : Prop :=
  opt_slots (actor_optimizer n) = actor_local n /\
  opt_slots (critic_optimizer n) = critic_local n /\
  NoDup (actor_local n ++ actor_target n ++ critic_local n ++ critic_target n) /\
  (forall i, In i (actor_local n ++ actor_target n ++ critic_local n ++ critic_target n) ->
     (i < length (params n))%nat).

(** Rows of one common length: what [np.vstack] needs of one-dimensional rows. *)
Definition rows_uniform (rows : list (list Q)) : bool :=
  match rows with
  | [] => true
  | r :: _ => forallb (fun r' => Nat.eqb (length r') (length r)) rows
  end.

(** Transitions whose states, actions and next states can each be stacked. *)
Definition batch_uniform (es : list Experience) : bool :=
  rows_uniform (map e_state es) && rows_uniform (map e_action es) &&
  rows_uniform (map e_next_state es).

(** Whether the actor and the critic built by [build_nets] from torch's
    generator state [g] have parameters ([optim.Adam] refuses an empty
    parameter list). *)
Definition networks_have_params `{Approximators} (ss asz seed : Z) (g : nat) : bool :=
  let '(al, g1) := actor_init ss asz seed g in
  let '(_, g2) := actor_init ss asz seed g1 in
  let '(cl, _) := critic_init ss asz seed g2 in
  (negb (Nat.eqb (length al) 0) && negb (Nat.eqb (length cl) 0))%bool.

(** ** Concrete collaborators, used to run the model on small inputs *)

Definition toy_random_float (p : nat) : Q := Z.of_nat (p mod 10) # 10.

Lemma toy_random_float_range : forall p, 0 <= toy_random_float p /\ toy_random_float p < 1.
Proof.
  intros p. assert (H : (p mod 10 < 10)%nat) by (apply Nat.mod_upper_bound; discriminate).
  unfold toy_random_float. generalize dependent (p mod 10)%nat. intros m Hm.
  unfold Qle, Qlt; simpl. split; lia.
Qed.

Lemma toy_randbelow_lt : forall p m, (0 < m)%nat -> (p mod m < m)%nat.
Proof. intros p m Hm. apply Nat.mod_upper_bound. lia. Qed.

(** A generator whose [n]-th [random()] is [(n mod 10)/10] and whose
    [_randbelow(m)] at position [n] is [n mod m]. *)
Definition toy_random : PyRandom :=
  {| random_float := toy_random_float;
     random_float_range := toy_random_float_range;
     randbelow := fun p m => (p mod m)%nat;
     randbelow_lt := toy_randbelow_lt |}.

(** Identity actor, critic summing its inputs, gradients equal to the
    parameters, plain gradient steps, and initial weights read from torch's
    generator position. *)
Definition toy_approximators : Approximators :=
  {| actor_forward := fun _ s => s;
     critic_forward := fun _ s a => fold_right Qplus 0 (s ++ a);
     critic_loss_grad := fun ps _ _ _ => ps;
     actor_loss_grad := fun ps _ _ => ps;
     adam_step := fun lr _ m ps gs => (map (fun '(p, g) => vsub p (vscale lr g)) (combine ps gs), m);
     actor_init := fun _ _ seed g => ([[inject_Z seed + (Z.of_nat g # 1)]], S g);
     critic_init := fun _ _ seed g => ([[inject_Z seed + (Z.of_nat g # 1); 1]], S g) |}.


(** Configurations with the soft-update rate set to [tau = 1]. *)
Definition config_tau1 : DDPGAgent.Config :=
  DDPGAgent.mkConfig 1 1 1 1 (99#100) 1 (1#10) (1#10) 0 0 (15#100) (2#10) 10 10 1 (1#10) 0.

Definition config_updated_tau1 : DDPGAgentUpdated.Config :=
  DDPGAgentUpdated.mkConfig 1 1 1 1 (99#100) 1 (1#10) (1#10) 0 0 (15#100) (2#10) 10 10 256 100000.

(** Two agents with one action coordinate, [mu = 0], [theta = 0] and
    [sigma = 1]: each noise sample is the generator's next draw. *)
Definition config_two_agents : DDPGAgent.Config :=
  DDPGAgent.mkConfig 2 1 1 1 (99#100) 1 (1#10) (1#10) 0 0 0 1 10 10 1 (1#10) 0.

Definition config_updated_two_agents : DDPGAgentUpdated.Config :=
  DDPGAgentUpdated.mkConfig 2 1 1 1 (99#100) 1 (1#10) (1#10) 0 0 0 1 10 10 256 100000.

(** Out-of-range hyperparameters: [gamma = 2], [tau = 0], and for the second
    file [batch_size = 0] and [buffer_size = 0]. *)
Definition config_bad_hparams : DDPGAgent.Config :=
  DDPGAgent.mkConfig 1 1 1 1 2 0 (1#10) (1#10) 0 0 (15#100) (2#10) 10 10 1 (1#10) 0.

Definition config_updated_bad_hparams : DDPGAgentUpdated.Config :=
  DDPGAgentUpdated.mkConfig 1 1 1 1 2 0 (1#10) (1#10) 0 0 (15#100) (2#10) 10 10 0 0.

(** A sampled batch and a network store for evaluating [learn]. *)
Definition batch_c1 : Batch :=
  mkBatch [[1]; [2]] [[0]; [0]] [5; 7] [[3]; [4]] [1; 0].

Definition nets_c1 : Nets :=
  mkNets [[1]; [2]; [3]; [4]] [0%nat] [1%nat] [2%nat] [3%nat]
         (mkOptimizer [0%nat] (1#10) 0 []) (mkOptimizer [2%nat] (1#10) 0 []).

(** An agent of [ddpg_agent.py] whose exploration rate decays by [1/4] per
    learning phase, with a one-transition buffer sampled one at a time. *)
Definition config_eps_decay : DDPGAgent.Config :=
  DDPGAgent.mkConfig 1 1 1 1 (99#100) 1 (1#10) (1#10) 0 0 (15#100) (2#10) 10 10 1 (1#10) (1#4).

Definition agent_small_buffer : DDPGAgent.Agent :=
  DDPGAgent.mkAgent config_eps_decay nets_c1 []
    (mkReplayBuffer 1 [mkExperience [1] [0] 1 [2] false] 100 1 1) 1 1 0.

(** Update cadence [time_update = 0]. *)
Definition config_cadence_zero : DDPGAgent.Config :=
  DDPGAgent.mkConfig 1 1 1 1 (99#100) 1 (1#10) (1#10) 0 0 (15#100) (2#10) 10 0 1 (1#10) 0.

(** An agent of [ddpg_agent_updated.py] with cadence [c], one learning
    phase per update, batch size 1 and one stored transition. *)
Definition config_updated_small (c : Z) : DDPGAgentUpdated.Config :=
  DDPGAgentUpdated.mkConfig 1 1 1 1 (99#100) 1 (1#10) (1#10) 0 0 (15#100) (2#10) 1 c 1 100.

Definition agent_updated_small (c : Z) : DDPGAgentUpdated.Agent :=
  DDPGAgentUpdated.mkAgent (config_updated_small c) nets_c1 (mkOUNoise [0] (15#100) (2#10) [0])
    (mkReplayBuffer 1 [mkExperience [1] [0] 1 [2] false] 100 1 1) 0 0.

(** Two stored transitions whose states (and next states) have lengths 1
    and 2, sampled two at a time. *)
Definition buffer_mixed_widths : ReplayBuffer :=
  mkReplayBuffer 1 [mkExperience [1] [0] 0 [1] false; mkExperience [1; 2] [0] 0 [1; 2] false] 10 2 1.

(** The last [c] elements of a list. *)
Definition lastn {A} (c : nat) (l : list A) : list A := skipn (length l - c) l.

(** ** General lemmas *)

Lemma nth_error_combine {A B} (l1 : list A) (l2 : list B) i x y :
  nth_error l1 i = Some x -> nth_error l2 i = Some y -> nth_error (combine l1 l2) i = Some (x, y).
Proof.
  revert i l2. induction l1 as [|a l1 IH]; intros [|i] [|b l2]; simpl; try discriminate.
  - congruence.
  - apply IH.
Qed.

Lemma get_set_nth_eq s i x : (i < length s)%nat -> get (set_nth i x s) i = x.
Proof.
  unfold get. revert i. induction s as [|y s IH]; intros [|i] Hi; simpl in *; try lia; auto.
  apply IH. lia.
Qed.

Lemma get_set_nth_ne s i j x : i <> j -> get (set_nth j x s) i = get s i.
Proof.
  unfold get. revert i j. induction s as [|y s IH]; intros [|i] [|j] Hij; simpl; auto;
    try congruence.
Qed.

Lemma length_set_nth s i x : length (set_nth i x s) = length s.
Proof. revert i. induction s; intros [|i]; simpl; auto. Qed.

Lemma write_params_frame ids vs s i :
  ~ In i ids -> get (write_params ids vs s) i = get s i.
Proof.
  revert vs s. induction ids as [|j ids IH]; intros [|v vs] s Hi; simpl; auto.
  rewrite IH by (simpl in Hi; tauto). apply get_set_nth_ne. intros ->. apply Hi. now left.
Qed.

Lemma nth_error_td_targets gamma rs qs ds i r q d :
  nth_error rs i = Some r -> nth_error qs i = Some q -> nth_error ds i = Some d ->
  nth_error (td_targets gamma rs qs ds) i = Some (r + gamma * q * (1 - d)).
Proof.
  intros Hr Hq Hd. unfold td_targets. rewrite nth_error_map.
  rewrite (nth_error_combine _ _ i r (q, d)); auto using nth_error_combine.
Qed.

(** ** Replay buffer lemmas *)

Lemma lastn_skipn {A} (c j : nat) (l : list A) :
  (j <= length l - c)%nat -> lastn c (skipn j l) = lastn c l.
Proof.
  intros Hj. unfold lastn. rewrite length_skipn, skipn_skipn. f_equal. lia.
Qed.

Lemma skipn_app_le {A} (j : nat) (l r : list A) :
  (j <= length l)%nat -> skipn j l ++ r = skipn j (l ++ r).
Proof. intros Hj. rewrite skipn_app. replace (j - length l)%nat with 0%nat by lia. reflexivity. Qed.

Lemma deque_append_lastn {A} (maxlen : Z) (d : list A) (x : A) :
  (0 <= maxlen)%Z -> (Z.of_nat (length d) <= maxlen)%Z ->
  deque_append maxlen d x = lastn (Z.to_nat maxlen) (d ++ [x]).
Proof.
  intros H0 Hd. unfold deque_append, lastn. rewrite length_app. simpl.
  destruct (Z.of_nat (length d) <? maxlen)%Z eqn:E.
  - apply Z.ltb_lt in E. replace (length d + 1 - Z.to_nat maxlen)%nat with 0%nat by lia.
    reflexivity.
  - apply Z.ltb_ge in E. replace (length d + 1 - Z.to_nat maxlen)%nat with 1%nat by lia.
    destruct (d ++ [x]) eqn:Ed; reflexivity.
Qed.

Lemma length_lastn_le {A} (c : nat) (l : list A) : (length (lastn c l) <= c)%nat.
Proof. unfold lastn. rewrite length_skipn. lia. Qed.

(** The deque keeps the last [maxlen] items of everything appended. *)
Lemma deque_extend_lastn {A} (maxlen : Z) (d xs : list A) :
  (0 <= maxlen)%Z -> (Z.of_nat (length d) <= maxlen)%Z ->
  deque_extend maxlen d xs = lastn (Z.to_nat maxlen) (d ++ xs).
Proof.
  unfold deque_extend. revert d. induction xs as [|x xs IH]; intros d H0 Hd; simpl.
  - unfold lastn. rewrite app_nil_r.
    replace (length d - Z.to_nat maxlen)%nat with 0%nat by lia. reflexivity.
  - rewrite deque_append_lastn by assumption.
    rewrite IH; [| assumption |].
    + unfold lastn at 2. rewrite skipn_app_le by (rewrite length_app; lia).
      rewrite <- app_assoc. simpl. apply lastn_skipn.
      rewrite !length_app. simpl. lia.
    + pose proof (length_lastn_le (Z.to_nat maxlen) (d ++ [x])). lia.
Qed.

Lemma fold_rb_append_memory b xs :
  rb_memory (fold_left rb_append xs b) = deque_extend (rb_maxlen b) (rb_memory b) xs.
Proof.
  revert b. induction xs as [|x xs IH]; intros b; simpl; [reflexivity | apply IH].
Qed.

Lemma fold_rb_append_maxlen b xs : rb_maxlen (fold_left rb_append xs b) = rb_maxlen b.
Proof. revert b. induction xs as [|x xs IH]; intros b; simpl; [reflexivity | rewrite IH; reflexivity]. Qed.


(** ** Lemmas on [random.sample] *)

Lemma NoDup_remove_nat (l : list nat) x : NoDup l -> NoDup (remove Nat.eq_dec x l).
Proof.
  induction l as [|a l IH]; intros Hnd; simpl; [constructor |].
  apply NoDup_cons_iff in Hnd as [Ha Hnd].
  destruct (Nat.eq_dec x a); [auto |].
  constructor; [| auto]. intros Hin. apply in_remove in Hin. tauto.
Qed.

Lemma NoDup_map_cons (i : nat) (L : list (list nat)) : NoDup L -> NoDup (map (cons i) L).
Proof.
  induction L as [|l L IH]; intros Hnd; simpl; [constructor |].
  apply NoDup_cons_iff in Hnd as [Hl Hnd]. constructor; auto.
  intros Hin. apply in_map_iff in Hin as [l' [E Hl']]. injection E as ->. contradiction.
Qed.

Lemma NoDup_flat_map_disjoint {A B} (f : A -> list B) (l : list A) :
  NoDup l -> (forall x, In x l -> NoDup (f x)) ->
  (forall x y z, x <> y -> In z (f x) -> In z (f y) -> False) ->
  NoDup (flat_map f l).
Proof.
  induction l as [|a l IH]; intros Hnd Hf Hdis; simpl; [constructor |].
  apply NoDup_cons_iff in Hnd as [Ha Hnd].
  apply NoDup_app.
  - apply Hf. now left.
  - apply IH; auto. intros x Hx. apply Hf. now right.
  - intros z Hz Hz'. apply in_flat_map in Hz' as [y [Hy Hzy]].
    apply (Hdis a y z); auto. intros ->. contradiction.
Qed.

(** The selections are exactly the duplicate-free lists of [k] elements
    drawn from [avail]. *)
Lemma in_arrangements k avail l :
  In l (arrangements k avail) <-> length l = k /\ NoDup l /\ incl l avail.
Proof.
  revert avail l. induction k as [|k IH]; intros avail l; simpl.
  - split.
    + intros [<- | []]. split; [reflexivity | split; [constructor | apply incl_nil_l]].
    + intros [Hl _]. destruct l; [now left | discriminate].
  - rewrite in_flat_map. split.
    + intros [i [Hi Hl]]. apply in_map_iff in Hl as [l' [<- Hl']].
      apply IH in Hl' as [Hlen [Hnd Hinc]].
      split; [simpl; congruence |]. split.
      * constructor; [| exact Hnd]. intros Hin. apply Hinc, in_remove in Hin. tauto.
      * intros z [<- | Hz]; [exact Hi |]. apply Hinc, in_remove in Hz. tauto.
    + intros [Hlen [Hnd Hinc]]. destruct l as [|i l']; [discriminate |].
      apply NoDup_cons_iff in Hnd as [Hi Hnd].
      exists i. split; [apply Hinc; now left |].
      apply in_map. apply IH. split; [simpl in Hlen; congruence |]. split; [exact Hnd |].
      intros z Hz. apply in_in_remove; [intros ->; contradiction |].
      apply Hinc. now right.
Qed.

Lemma NoDup_arrangements k avail : NoDup avail -> NoDup (arrangements k avail).
Proof.
  revert avail. induction k as [|k IH]; intros avail Hnd; simpl.
  - constructor; [intros [] | constructor].
  - apply NoDup_flat_map_disjoint; [exact Hnd | |].
    + intros x _. apply NoDup_map_cons, IH, NoDup_remove_nat, Hnd.
    + intros x y z Hxy Hx Hy.
      apply in_map_iff in Hx as [l [<- _]]. apply in_map_iff in Hy as [l' [E _]].
      injection E as ->. contradiction.
Qed.

Lemma in_arrangements_seq k n l :
  In l (arrangements k (seq 0 n)) <->
  length l = k /\ NoDup l /\ (forall i, In i l -> (i < n)%nat).
Proof.
  rewrite in_arrangements. unfold incl.
  setoid_rewrite in_seq. split; intros [H1 [H2 H]]; (split; [exact H1 | split; [exact H2 |]]);
    intros i Hi; apply H in Hi; lia.
Qed.

Lemma arrangements_seq_nonempty k n :
  (k <= n)%nat -> (0 < length (arrangements k (seq 0 n)))%nat.
Proof.
  intros Hk. assert (Hin : In (seq 0 k) (arrangements k (seq 0 n))).
  { apply in_arrangements_seq. split; [apply length_seq |]. split; [apply seq_NoDup |].
    intros i Hi. apply in_seq in Hi. lia. }
  destruct (arrangements k (seq 0 n)); [destruct Hin | simpl; lia].
Qed.

Lemma sample_positions_ok `{PyRandom} p n k ix :
  sample_positions p n k = Ok ix ->
  (0 <= k)%Z /\ (k <= Z.of_nat n)%Z /\
  let arrs := arrangements (Z.to_nat k) (seq 0 n) in
  ix = nth (randbelow p (length arrs)) arrs [] /\ In ix arrs.
Proof.
  unfold sample_positions. destruct ((k <? 0)%Z || (Z.of_nat n <? k)%Z)%bool eqn:E;
    [discriminate |].
  apply orb_false_iff in E as [E1 E2]. apply Z.ltb_ge in E1, E2.
  intros Hix. injection Hix as <-. split; [lia | split; [lia |]]. cbv zeta. split; [reflexivity |].
  apply nth_In, randbelow_lt, arrangements_seq_nonempty. lia.
Qed.

Lemma rb_sample_rng `{PyRandom} b p bt p' : rb_sample b p = Ok (bt, p') -> p' = S p.
Proof.
  unfold rb_sample, random_sample.
  destruct (sample_positions p (length (rb_memory b)) (rb_batch_size b)); simpl; [| discriminate].
  destruct (stack_experiences _); simpl; [| discriminate]. congruence.
Qed.

Lemma stack_experiences_spec es :
  stack_experiences es =
    match es with
    | [] => Err ValueError
    | _ => if batch_uniform es
           then Ok (mkBatch (map e_state es) (map e_action es) (map e_reward es)
                            (map e_next_state es) (map (fun e => done_to_float (e_done e)) es))
           else Err ValueError
    end.
Proof.
  destruct es as [|e es]; [reflexivity |].
  unfold stack_experiences, batch_uniform, rows_uniform, np_vstack, np_vstack_scalars.
  cbn [map].
  destruct (forallb _ (e_state e :: map e_state es)); cbn [bind andb]; [| reflexivity].
  destruct (forallb _ (e_action e :: map e_action es)); cbn [bind andb]; [| reflexivity].
  destruct (forallb _ (e_next_state e :: map e_next_state es)); reflexivity.
Qed.

Lemma rows_uniform_spec (rows : list (list Q)) :
  rows_uniform rows = true <-> forall r1 r2, In r1 rows -> In r2 rows -> length r1 = length r2.
Proof.
  destruct rows as [|r rows].
  - split; [intros _ r1 r2 [] | reflexivity].
  - unfold rows_uniform. rewrite forallb_forall. split.
    + intros H r1 r2 H1 H2. apply H, Nat.eqb_eq in H1. apply H, Nat.eqb_eq in H2. congruence.
    + intros H x Hx. apply Nat.eqb_eq, H; [exact Hx | left; reflexivity].
Qed.

Lemma rows_uniform_incl (rows sub : list (list Q)) :
  rows_uniform rows = true -> incl sub rows -> rows_uniform sub = true.
Proof.
  rewrite !rows_uniform_spec. intros H Hi r1 r2 H1 H2. apply H; apply Hi; assumption.
Qed.

Lemma batch_uniform_incl (mem es : list Experience) :
  batch_uniform mem = true -> incl es mem -> batch_uniform es = true.
Proof.
  unfold batch_uniform. rewrite !andb_true_iff. intros [[H1 H2] H3] Hi.
  split; [split |];
    [ apply (rows_uniform_incl _ _ H1) | apply (rows_uniform_incl _ _ H2)
    | apply (rows_uniform_incl _ _ H3) ]; apply incl_map, Hi.
Qed.

Lemma rb_sample_eq `{PyRandom} b p :
  rb_sample b p =
    if ((rb_batch_size b <? 0)%Z || (Z.of_nat (length (rb_memory b)) <? rb_batch_size b)%Z)%bool
    then Err ValueError
    else match stack_experiences
                 (map (fun i => nth i (rb_memory b) experience0)
                      (nth (randbelow p (length (arrangements (Z.to_nat (rb_batch_size b))
                                                   (seq 0 (length (rb_memory b))))))
                           (arrangements (Z.to_nat (rb_batch_size b)) (seq 0 (length (rb_memory b))))
                           [])) with
         | Ok bt => Ok (bt, S p)
         | Err e => Err e
         end.
Proof.
  unfold rb_sample, random_sample, sample_positions. cbv zeta.
  destruct ((rb_batch_size b <? 0)%Z || (Z.of_nat (length (rb_memory b)) <? rb_batch_size b)%Z)%bool;
    [reflexivity |].
  cbn [bind]. destruct (stack_experiences _); reflexivity.
Qed.

Lemma sample_stack_ok `{PyRandom} (b : ReplayBuffer) (p : nat) :
  batch_uniform (rb_memory b) = true -> (0 < rb_batch_size b)%Z -> (rb_batch_size b <= rb_len b)%Z ->
  exists es p' bt, random_sample experience0 p (rb_memory b) (rb_batch_size b) = Ok (es, p') /\
                   stack_experiences es = Ok bt.
Proof.
  intros Hu Hk0 Hkn. unfold rb_len in Hkn. unfold random_sample, sample_positions.
  destruct ((rb_batch_size b <? 0)%Z || (Z.of_nat (length (rb_memory b)) <? rb_batch_size b)%Z)%bool
    eqn:E.
  { apply orb_true_iff in E as [E|E]; apply Z.ltb_lt in E; lia. }
  cbv zeta. cbn [bind].
  remember (nth (randbelow p (length (arrangements (Z.to_nat (rb_batch_size b))
                                        (seq 0 (length (rb_memory b))))))
                (arrangements (Z.to_nat (rb_batch_size b)) (seq 0 (length (rb_memory b)))) [])
    as ix0 eqn:Eix.
  assert (Hin : In ix0 (arrangements (Z.to_nat (rb_batch_size b)) (seq 0 (length (rb_memory b))))).
  { rewrite Eix. apply nth_In, randbelow_lt, arrangements_seq_nonempty. lia. }
  apply in_arrangements_seq in Hin as [Hlen [_ Hlt]].
  assert (Hsub : incl (map (fun i => nth i (rb_memory b) experience0) ix0) (rb_memory b)).
  { intros e He. apply in_map_iff in He as [i [<- Hi]]. apply nth_In, Hlt, Hi. }
  exists (map (fun i => nth i (rb_memory b) experience0) ix0), (S p).
  rewrite stack_experiences_spec, (batch_uniform_incl _ _ Hu Hsub).
  destruct ix0 as [|i ix]; [simpl in Hlen; lia |].
  eexists. split; reflexivity.
Qed.

Lemma DDPGAgent_learn_updates_memory `{Approximators} `{PyRandom} k a a' :
  DDPGAgent.learn_updates k a = Ok a' -> DDPGAgent.memory a' = DDPGAgent.memory a.
Proof.
  revert a. induction k as [|k IH]; intros a; simpl; [congruence |].
  destruct (rb_sample (DDPGAgent.memory a) (DDPGAgent.rng a)) as [[bt p']|]; simpl; [| discriminate].
  intros Ha. apply IH in Ha. rewrite Ha. reflexivity.
Qed.

Lemma DDPGAgentUpdated_learn_updates_memory `{Approximators} `{PyRandom} k a a' :
  DDPGAgentUpdated.learn_updates k a = Ok a' ->
  DDPGAgentUpdated.memory a' = DDPGAgentUpdated.memory a.
Proof.
  revert a. induction k as [|k IH]; intros a; simpl; [congruence |].
  destruct (rb_sample (DDPGAgentUpdated.memory a) (DDPGAgentUpdated.rng a)) as [[bt p']|];
    simpl; [| discriminate].
  intros Ha. apply IH in Ha. rewrite Ha. reflexivity.
Qed.


(** ** Lemmas on the parameter store *)

Lemma hard_update_slots_spec ts ls s :
  NoDup ts -> (forall i, In i ts -> ~ In i ls) -> (forall i, In i ts -> (i < length s)%nat) ->
  (forall k t l, nth_error ts k = Some t -> nth_error ls k = Some l ->
     get (hard_update_slots ts ls s) t = get s l) /\
  (forall j, ~ In j ts -> get (hard_update_slots ts ls s) j = get s j).
Proof.
  revert ls s. induction ts as [|t ts IH]; intros ls s Hnd Hdis Hlen.
  - split; [intros [|k] ? ? Ht; discriminate | reflexivity].
  - apply NoDup_cons_iff in Hnd as [Ht Hnd].
    destruct ls as [|l ls].
    + split; [intros k t' l' _ Hl; destruct k; discriminate | reflexivity].
    + simpl.
      assert (Hlen' : forall i, In i ts -> (i < length (set_nth t (get s l) s))%nat).
      { intros i Hi. rewrite length_set_nth. apply Hlen. now right. }
      assert (Hdis' : forall i, In i ts -> ~ In i ls).
      { intros i Hi Hl. apply (Hdis i); [now right | now right]. }
      destruct (IH ls (set_nth t (get s l) s) Hnd Hdis' Hlen') as [IH1 IH2].
      split.
      * intros [|k] t' l' Ht' Hl'; simpl in Ht', Hl'.
        -- injection Ht' as <-. injection Hl' as <-. rewrite IH2 by exact Ht.
           apply get_set_nth_eq, Hlen. now left.
        -- rewrite (IH1 k t' l' Ht' Hl'). apply get_set_nth_ne.
           intros ->. apply (Hdis t); [now left | right; eapply nth_error_In; exact Hl'].
      * intros j Hj. rewrite IH2 by (intros Hin; apply Hj; now right).
        apply get_set_nth_ne. intros ->. apply Hj. now left.
Qed.

Lemma soft_update_slots_spec tau ts ls s :
  NoDup ts -> (forall i, In i ts -> ~ In i ls) -> (forall i, In i ts -> (i < length s)%nat) ->
  (forall k t l, nth_error ts k = Some t -> nth_error ls k = Some l ->
     get (soft_update_slots tau ts ls s) t = blend tau (get s l) (get s t)) /\
  (forall j, ~ In j ts -> get (soft_update_slots tau ts ls s) j = get s j).
Proof.
  revert ls s. induction ts as [|t ts IH]; intros ls s Hnd Hdis Hlen.
  - split; [intros [|k] ? ? Ht; discriminate | reflexivity].
  - apply NoDup_cons_iff in Hnd as [Ht Hnd].
    destruct ls as [|l ls].
    + split; [intros k t' l' _ Hl; destruct k; discriminate | reflexivity].
    + simpl.
      set (s1 := set_nth t (blend tau (get s l) (get s t)) s).
      assert (Hlen' : forall i, In i ts -> (i < length s1)%nat).
      { intros i Hi. unfold s1. rewrite length_set_nth. apply Hlen. now right. }
      assert (Hdis' : forall i, In i ts -> ~ In i ls).
      { intros i Hi Hl. apply (Hdis i); [now right | now right]. }
      destruct (IH ls s1 Hnd Hdis' Hlen') as [IH1 IH2].
      split.
      * intros [|k] t' l' Ht' Hl'; simpl in Ht', Hl'.
        -- injection Ht' as <-. injection Hl' as <-. rewrite IH2 by exact Ht.
           apply get_set_nth_eq, Hlen. now left.
        -- rewrite (IH1 k t' l' Ht' Hl'). unfold s1.
           rewrite !get_set_nth_ne; [reflexivity | |].
           ++ intros ->. apply Ht. eapply nth_error_In. exact Ht'.
           ++ intros ->. apply (Hdis t); [now left | right; eapply nth_error_In; exact Hl'].
      * intros j Hj. rewrite IH2 by (intros Hin; apply Hj; now right).
        unfold s1. apply get_set_nth_ne. intros ->. apply Hj. now left.
Qed.

(** The blend with [tau = 1] is the local tensor, with [tau = 0] the target. *)
Lemma blend_one l t : length l = length t -> Forall2 Qeq (blend 1 l t) l.
Proof.
  revert t. induction l as [|x l IH]; intros [|y t] Hlen; simpl in *; try discriminate; constructor.
  - ring.
  - apply IH. congruence.
Qed.

Lemma blend_zero l t : length l = length t -> Forall2 Qeq (blend 0 l t) t.
Proof.
  revert t. induction l as [|x l IH]; intros [|y t] Hlen; simpl in *; try discriminate; constructor.
  - ring.
  - apply IH. congruence.
Qed.

Lemma NoDup_app_disjoint (l1 l2 : list nat) i : NoDup (l1 ++ l2) -> In i l1 -> ~ In i l2.
Proof.
  induction l1 as [|a l1 IH]; simpl; intros Hnd Hi; [destruct Hi |].
  apply NoDup_cons_iff in Hnd as [Ha Hnd]. destruct Hi as [<- | Hi].
  - intros Hin. apply Ha, in_or_app. now right.
  - now apply IH.
Qed.

Lemma nets_wf_set_params n s : nets_wf n -> length s = length (params n) -> nets_wf (set_params n s).
Proof. intros [H1 [H2 [H3 H4]]] Hl. unfold nets_wf; simpl. rewrite Hl. auto. Qed.

Lemma length_write_params ids vs s : length (write_params ids vs s) = length s.
Proof.
  revert vs s. induction ids as [|i ids IH]; intros [|v vs] s; simpl; auto.
  rewrite IH. apply length_set_nth.
Qed.

Lemma length_soft_update_slots tau ts ls s : length (soft_update_slots tau ts ls s) = length s.
Proof.
  revert ls s. induction ts as [|t ts IH]; intros [|l ls] s; simpl; auto.
  rewrite IH. apply length_set_nth.
Qed.

Lemma length_hard_update_slots ts ls s : length (hard_update_slots ts ls s) = length s.
Proof.
  revert ls s. induction ts as [|t ts IH]; intros [|l ls] s; simpl; auto.
  rewrite IH. apply length_set_nth.
Qed.

Lemma critic_update_wf `{Approximators} n b y : nets_wf n -> nets_wf (critic_update n b y).
Proof.
  intros [H1 [H2 [H3 H4]]]. unfold critic_update, opt_step.
  destruct (adam_step _ _ _ _ _) as [ps' m']. unfold nets_wf; simpl.
  rewrite length_write_params. auto.
Qed.

Lemma actor_update_wf `{Approximators} n b : nets_wf n -> nets_wf (actor_update n b).
Proof.
  intros [H1 [H2 [H3 H4]]]. unfold actor_update, opt_step.
  destruct (adam_step _ _ _ _ _) as [ps' m']. unfold nets_wf; simpl.
  rewrite length_write_params. auto.
Qed.

Lemma learn_nets_wf `{Approximators} n b g : nets_wf n -> nets_wf (learn_nets n b g).
Proof.
  intros Hwf. unfold learn_nets.
  pose proof (actor_update_wf _ b (critic_update_wf n b (learn_q_targets n b g) Hwf)) as Hwf2.
  apply nets_wf_set_params; [apply nets_wf_set_params; [exact Hwf2 |] |];
    unfold soft_update; simpl; apply length_soft_update_slots.
Qed.

Lemma optim_Adam_slots sl lr wd o : optim_Adam sl lr wd = Ok o -> opt_slots o = sl.
Proof.
  unfold optim_Adam. destruct (negb (Qle_bool 0 lr)); [discriminate |].
  destruct (negb (Qle_bool 0 wd)); [discriminate |].
  destruct sl; [discriminate |]. intros E. injection E as <-. reflexivity.
Qed.

Lemma build_nets_is_ok `{Approximators} ss asz seed la lc wd g :
  is_ok (build_nets ss asz seed la lc wd g) =
    (Qle_bool 0 la && Qle_bool 0 lc && Qle_bool 0 wd && networks_have_params ss asz seed g)%bool.
Proof.
  unfold build_nets, networks_have_params, optim_Adam.
  destruct (actor_init ss asz seed g) as [al g1].
  destruct (actor_init ss asz seed g1) as [atg g2].
  destruct (critic_init ss asz seed g2) as [cl g3].
  destruct (critic_init ss asz seed g3) as [ct g4].
  destruct (Qle_bool 0 la), (Qle_bool 0 lc), (Qle_bool 0 wd), al, cl; reflexivity.
Qed.

Lemma build_nets_wf `{Approximators} ss asz seed la lc wd g n g' :
  build_nets ss asz seed la lc wd g = Ok (n, g') -> nets_wf n.
Proof.
  unfold build_nets.
  destruct (actor_init ss asz seed g) as [al g1].
  destruct (actor_init ss asz seed g1) as [atg g2].
  destruct (optim_Adam (seq 0 (length al)) la 0) as [aopt|] eqn:Ea; cbn [bind]; [| discriminate].
  destruct (critic_init ss asz seed g2) as [cl g3].
  destruct (critic_init ss asz seed g3) as [ct g4].
  destruct (optim_Adam _ lc wd) as [copt|] eqn:Ec; cbn [bind]; [| discriminate].
  intros E. injection E as <- _.
  apply optim_Adam_slots in Ea, Ec.
  unfold nets_wf; simpl. split; [exact Ea | split; [exact Ec |]].
  rewrite <- !seq_app.
  split; [apply seq_NoDup |].
  intros i Hi. apply in_seq in Hi. rewrite !length_app. lia.
Qed.


Lemma ou_step_zero_params (t sg : Q) (x mu xi : list Q) :
  t == 0 -> sg == 0 -> Forall2 Qeq x mu -> length xi = length x ->
  Forall2 Qeq (vadd x (vadd (vscale t (vsub mu x)) (vscale sg xi))) mu.
Proof.
  intros Ht Hs HF. revert xi. induction HF as [|a b x mu Hab HF IH]; intros [|z xi] Hlen;
    simpl in *; try discriminate; constructor.
  - rewrite Ht, Hs, Hab. ring.
  - apply IH. congruence.
Qed.

Lemma Forall2_Qeq_refl (l : list Q) : Forall2 Qeq l l.
Proof. induction l; constructor; [reflexivity | assumption]. Qed.

Lemma Forall2_length_eq {A B} (R : A -> B -> Prop) l1 l2 : Forall2 R l1 l2 -> length l1 = length l2.
Proof. induction 1; simpl; congruence. Qed.


Lemma NoDup_app_disjoint_r (l1 l2 : list nat) i : NoDup (l1 ++ l2) -> In i l2 -> ~ In i l1.
Proof. intros Hnd Hi Hin. exact (NoDup_app_disjoint l1 l2 i Hnd Hin Hi). Qed.

(** In [ddpg_agent.py] the constructor's [hard_update] calls leave every
    target parameter equal to the local parameter at the same index. *)
Lemma DDPGAgent_init_targets_aligned `{Approximators} c p g a :
  DDPGAgent.Agent_init c p g = Ok a ->
  let n := DDPGAgent.nets a in
  (forall k t l, nth_error (actor_target n) k = Some t -> nth_error (actor_local n) k = Some l ->
     get (params n) t = get (params n) l) /\
  (forall k t l, nth_error (critic_target n) k = Some t -> nth_error (critic_local n) k = Some l ->
     get (params n) t = get (params n) l).
Proof.
  unfold DDPGAgent.Agent_init.
  destruct (build_nets _ _ _ _ _ _ g) as [[n g']|] eqn:Eb; cbn [bind]; [| discriminate].
  pose proof (build_nets_wf _ _ _ _ _ _ _ _ _ Eb) as Hwf.
  destruct (mapM _ _); [| discriminate]. cbn [bind].
  destruct (ReplayBuffer_init _ _ _ _); [| discriminate]. cbn [bind].
  intros E. injection E as <-. cbv zeta. simpl.
  destruct Hwf as [_ [_ [Hnd Hlen]]].
  set (al := actor_local n) in *. set (atg := actor_target n) in *.
  set (cl := critic_local n) in *. set (ct := critic_target n) in *.
  assert (Nat : NoDup atg).
  { apply NoDup_app_remove_l in Hnd. apply NoDup_app_remove_r in Hnd. exact Hnd. }
  assert (Nct : NoDup ct).
  { apply NoDup_app_remove_l, NoDup_app_remove_l, NoDup_app_remove_l in Hnd. exact Hnd. }
  assert (Dat : forall i, In i atg -> ~ In i al).
  { intros i Hi. apply (NoDup_app_disjoint_r al _ i Hnd). apply in_or_app. now left. }
  assert (Dct : forall i, In i ct -> ~ In i cl).
  { intros i Hi. pose proof (NoDup_app_remove_l _ _ Hnd) as Hnd'.
    apply NoDup_app_remove_l in Hnd'. apply (NoDup_app_disjoint_r cl ct i Hnd' Hi). }
  assert (Act : forall i, In i al \/ In i atg -> ~ In i ct).
  { intros i [Hi|Hi] Hc.
    - apply (NoDup_app_disjoint al _ i Hnd Hi). apply in_or_app. right.
      apply in_or_app. right. exact Hc.
    - pose proof (NoDup_app_remove_l _ _ Hnd) as Hnd'.
      apply (NoDup_app_disjoint atg _ i Hnd' Hi). apply in_or_app. right. exact Hc. }
  assert (Lat : forall i, In i atg -> (i < length (params n))%nat).
  { intros i Hi. apply Hlen. apply in_or_app. right. apply in_or_app. now left. }
  assert (Lct : forall i, In i ct -> (i < length (params n))%nat).
  { intros i Hi. apply Hlen. apply in_or_app. right. apply in_or_app. right.
    apply in_or_app. now right. }
  unfold hard_update.
  set (s1 := hard_update_slots atg al (params n)).
  destruct (hard_update_slots_spec atg al (params n) Nat Dat Lat) as [A1 A2].
  assert (Lct1 : forall i, In i ct -> (i < length s1)%nat).
  { intros i Hi. unfold s1. rewrite length_hard_update_slots. apply Lct, Hi. }
  destruct (hard_update_slots_spec ct cl s1 Nct Dct Lct1) as [C1 C2].
  split.
  - intros k t l Ht Hl.
    assert (Int : In t atg) by (eapply nth_error_In; exact Ht).
    assert (Inl : In l al) by (eapply nth_error_In; exact Hl).
    rewrite (C2 t) by (apply Act; now right). rewrite (C2 l) by (apply Act; now left).
    unfold s1. rewrite (A1 k t l Ht Hl). rewrite (A2 l) by (intros Hin; exact (Dat l Hin Inl)).
    reflexivity.
  - intros k t l Ht Hl.
    assert (Inl : In l cl) by (eapply nth_error_In; exact Hl).
    rewrite (C1 k t l Ht Hl). rewrite (C2 l) by (intros Hin; exact (Dct l Hin Inl)).
    reflexivity.
Qed.

(** The soft update writes [tau * local + (1 - tau) * target] into each
    target slot and leaves all other slots alone; with [tau = 1] the target
    becomes the local tensor and with [tau = 0] it is unchanged. *)
Lemma soft_update_spec (local target : list nat) (tau : Q) (s : store) :
  NoDup target -> (forall i, In i target -> ~ In i local) ->
  (forall i, In i target -> (i < length s)%nat) ->
  (forall k t l, nth_error target k = Some t -> nth_error local k = Some l ->
     get (soft_update local target tau s) t = blend tau (get s l) (get s t) /\
     (tau == 1 -> length (get s l) = length (get s t) ->
        Forall2 Qeq (get (soft_update local target tau s) t) (get s l)) /\
     (tau == 0 -> length (get s l) = length (get s t) ->
        Forall2 Qeq (get (soft_update local target tau s) t) (get s t))) /\
  (forall j, ~ In j target -> get (soft_update local target tau s) j = get s j).
Proof.
  intros Hnd Hdis Hlen.
  destruct (soft_update_slots_spec tau target local s Hnd Hdis Hlen) as [S1 S2].
  split; [| exact S2].
  intros k t l Ht Hl. unfold soft_update. rewrite (S1 k t l Ht Hl).
  split; [reflexivity | split]; intros Htau Hl'.
  - generalize (get s l) (get s t) Hl'. clear - Htau. intros u v Huv. unfold blend, vscale, vadd.
    revert v Huv. induction u as [|x u IH]; intros [|y v] Huv; simpl in *; try discriminate;
      constructor.
    + rewrite Htau. ring.
    + apply IH. congruence.
  - generalize (get s l) (get s t) Hl'. clear - Htau. intros u v Huv. unfold blend, vscale, vadd.
    revert v Huv. induction u as [|x u IH]; intros [|y v] Huv; simpl in *; try discriminate;
      constructor.
    + rewrite Htau. ring.
    + apply IH. congruence.
Qed.


(** ** Lemmas on [step] *)

Lemma mapM_rows_ok (exps : list Experience) (k start : nat) :
  (start + k <= length exps)%nat ->
  mapM (fun i => match nth_error exps i with Some e => Ok e | None => Err IndexError end)
       (seq start k) = Ok (firstn k (skipn start exps)).
Proof.
  revert start. induction k as [|k IH]; intros start Hk; simpl; [reflexivity |].
  destruct (nth_error exps start) as [e|] eqn:E.
  - cbn [bind]. rewrite IH by lia. cbn [bind].
    assert (Hs : skipn start exps = e :: skipn (S start) exps).
    { clear - E. revert start E. induction exps as [|x xs IH]; intros [|start] E;
        simpl in *; try discriminate.
      - injection E as ->. reflexivity.
      - apply IH, E. }
    rewrite Hs. reflexivity.
  - apply nth_error_None in E. lia.
Qed.

Lemma agent_rows_ok (n : Z) (exps : list Experience) :
  (Z.to_nat n <= length exps)%nat -> agent_rows n exps = Ok (firstn (Z.to_nat n) exps).
Proof. intros H. unfold agent_rows. rewrite mapM_rows_ok by lia. reflexivity. Qed.

Lemma py_mod_pos_test (t c : Z) :
  (0 < c)%Z -> py_mod t c = Ok (t mod c)%Z /\ ((t mod c >? 0)%Z = negb (t mod c =? 0)%Z).
Proof.
  intros Hc. unfold py_mod. destruct (c =? 0)%Z eqn:E; [apply Z.eqb_eq in E; lia |].
  split; [reflexivity |].
  pose proof (Z.mod_pos_bound t c Hc).
  destruct (t mod c =? 0)%Z eqn:E0; simpl.
  - apply Z.eqb_eq in E0. rewrite E0. reflexivity.
  - apply Z.eqb_neq in E0. apply Z.gtb_lt. lia.
Qed.

Lemma DDPGAgent_learn_updates_rng `{Approximators} `{PyRandom} k a a' :
  DDPGAgent.learn_updates k a = Ok a' -> DDPGAgent.rng a' = (DDPGAgent.rng a + k)%nat.
Proof.
  revert a. induction k as [|k IH]; intros a; simpl.
  - intros E. injection E as <-. lia.
  - destruct (rb_sample (DDPGAgent.memory a) (DDPGAgent.rng a)) as [[bt p']|] eqn:Es;
      cbn [bind]; [| discriminate].
    intros Ha. apply IH in Ha. apply rb_sample_rng in Es. rewrite Ha. simpl. lia.
Qed.

Lemma DDPGAgentUpdated_learn_updates_rng `{Approximators} `{PyRandom} k a a' :
  DDPGAgentUpdated.learn_updates k a = Ok a' ->
  DDPGAgentUpdated.rng a' = (DDPGAgentUpdated.rng a + k)%nat.
Proof.
  revert a. induction k as [|k IH]; intros a; simpl.
  - intros E. injection E as <-. lia.
  - destruct (rb_sample (DDPGAgentUpdated.memory a) (DDPGAgentUpdated.rng a)) as [[bt p']|] eqn:Es;
      cbn [bind]; [| discriminate].
    intros Ha. apply IH in Ha. apply rb_sample_rng in Es. rewrite Ha. simpl. lia.
Qed.

Lemma skipn_nth_error {A} (l : list A) (s : nat) (e : A) :
  nth_error l s = Some e -> skipn s l = e :: skipn (S s) l.
Proof.
  revert l. induction s as [|s IH]; intros [|x l] E; simpl in *; try discriminate.
  - congruence.
  - apply IH, E.
Qed.

Lemma append_rows_seq (exps : list Experience) (n : nat) : forall s b,
  append_rows b exps (seq s n) =
    (fold_left rb_append (firstn n (skipn s exps)) b,
     if (n <=? length exps - s)%nat then None else Some IndexError).
Proof.
  induction n as [|n IH]; intros s b; [reflexivity |].
  simpl. destruct (nth_error exps s) as [e|] eqn:Ee.
  - rewrite IH, (skipn_nth_error exps s e Ee). simpl.
    assert (Hs : (s < length exps)%nat) by (apply nth_error_Some; congruence).
    replace (length exps - s)%nat with (S (length exps - S s)) by lia. reflexivity.
  - apply nth_error_None in Ee. rewrite skipn_all2 by exact Ee. simpl.
    replace (length exps - s)%nat with 0%nat by lia. reflexivity.
Qed.

Lemma append_rows_firstn (b : ReplayBuffer) (exps : list Experience) (n : nat) :
  append_rows b exps (seq 0 n) =
    (fold_left rb_append (firstn n exps) b, if (n <=? length exps)%nat then None else Some IndexError).
Proof. rewrite append_rows_seq, Nat.sub_0_r. reflexivity. Qed.

Lemma DDPGAgent_learn_loop_memory `{Approximators} `{PyRandom} k : forall a,
  DDPGAgent.memory (fst (DDPGAgent.learn_loop k a)) = DDPGAgent.memory a.
Proof.
  induction k as [|k IH]; intros a; simpl; [reflexivity |].
  destruct (random_sample _ _ _ _) as [[es p']|e]; [| reflexivity].
  destruct (stack_experiences es); [rewrite IH |]; reflexivity.
Qed.

Lemma DDPGAgentUpdated_learn_loop_memory `{Approximators} `{PyRandom} k : forall a,
  DDPGAgentUpdated.memory (fst (DDPGAgentUpdated.learn_loop k a)) = DDPGAgentUpdated.memory a.
Proof.
  induction k as [|k IH]; intros a; simpl; [reflexivity |].
  destruct (random_sample _ _ _ _) as [[es p']|e]; [| reflexivity].
  destruct (stack_experiences es); [rewrite IH |]; reflexivity.
Qed.

Lemma DDPGAgent_learn_updates_loop `{Approximators} `{PyRandom} k : forall a,
  DDPGAgent.learn_updates k a =
    match DDPGAgent.learn_loop k a with (a', None) => Ok a' | (_, Some e) => Err e end.
Proof.
  induction k as [|k IH]; intros a; simpl; [reflexivity |].
  unfold rb_sample. destruct (random_sample _ _ _ _) as [[es p']|e]; cbn [bind]; [| reflexivity].
  destruct (stack_experiences es); cbn [bind]; [apply IH | reflexivity].
Qed.

Lemma DDPGAgentUpdated_learn_updates_loop `{Approximators} `{PyRandom} k : forall a,
  DDPGAgentUpdated.learn_updates k a =
    match DDPGAgentUpdated.learn_loop k a with (a', None) => Ok a' | (_, Some e) => Err e end.
Proof.
  induction k as [|k IH]; intros a; simpl; [reflexivity |].
  unfold rb_sample. destruct (random_sample _ _ _ _) as [[es p']|e]; cbn [bind]; [| reflexivity].
  destruct (stack_experiences es); cbn [bind]; [apply IH | reflexivity].
Qed.

Lemma learn_loop_ok_iff {A} (r : A * option PyError) (a' : A) :
  match r with (x, None) => Ok x | (_, Some e) => Err e end = Ok a' <-> r = (a', None).
Proof.
  destruct r as [x [e|]]; split; intros E; try discriminate; congruence.
Qed.

Lemma py_mod_zero (t : Z) : py_mod t 0 = Err ZeroDivisionError.
Proof. reflexivity. Qed.

Lemma py_mod_neg_test (t c : Z) : (c < 0)%Z -> py_mod t c = Ok (t mod c)%Z /\ (t mod c >? 0)%Z = false.
Proof.
  intros Hc. unfold py_mod. destruct (Z.eqb_spec c 0); [lia |]. split; [reflexivity |].
  pose proof (Z.mod_neg_bound t c Hc). rewrite Z.gtb_ltb. apply Z.ltb_ge. lia.
Qed.

Lemma DDPGAgent_step_eq `{Approximators} `{PyRandom} a t exps :
  let n := Z.to_nat (rb_num_agents (DDPGAgent.memory a)) in
  let mem := fold_left rb_append (firstn n exps) (DDPGAgent.memory a) in
  let a1 := DDPGAgent.with_memory a mem in
  DDPGAgent.step a t exps =
    if (n <=? length exps)%nat then
      match py_mod t (DDPGAgent.time_update a) with
      | Err err => (a1, Some err)
      | Ok r => if (r >? 0)%Z then (a1, None)
                else if (DDPGAgent.BATCH_SIZE <? rb_len mem)%Z
                     then DDPGAgent.learn_loop (Z.to_nat (DDPGAgent.learning_rate a)) a1
                     else (a1, None)
      end
    else (a1, Some IndexError).
Proof.
  cbv zeta. unfold DDPGAgent.step. rewrite append_rows_firstn.
  destruct (_ <=? _)%nat; reflexivity.
Qed.

Lemma DDPGAgentUpdated_step_eq `{Approximators} `{PyRandom} a t exps :
  let n := Z.to_nat (DDPGAgentUpdated.num_agents a) in
  let mem := fold_left rb_append (firstn n exps) (DDPGAgentUpdated.memory a) in
  let a1 := DDPGAgentUpdated.with_memory a mem in
  DDPGAgentUpdated.step a t exps =
    if (n <=? length exps)%nat then
      match py_mod t (DDPGAgentUpdated.time_update a) with
      | Err err => (a1, Some err)
      | Ok r => if (r >? 0)%Z then (a1, None)
                else if (DDPGAgentUpdated.batch_size a <? rb_len mem)%Z
                     then DDPGAgentUpdated.learn_loop (Z.to_nat (DDPGAgentUpdated.learning_rate a)) a1
                     else (a1, None)
      end
    else (a1, Some IndexError).
Proof.
  cbv zeta. unfold DDPGAgentUpdated.step. rewrite append_rows_firstn.
  destruct (_ <=? _)%nat; reflexivity.
Qed.

Lemma np_clip_range (x : Q) : -1 <= np_clip (-1) 1 x <= 1.
Proof.
  unfold np_clip. split.
  - apply Q.min_glb; [apply Q.le_max_r | discriminate].
  - apply Q.le_min_r.
Qed.

Lemma clip_rows_range (rows : list (list Q)) :
  Forall (Forall (fun x => -1 <= x <= 1)) (map (map (np_clip (-1) 1)) rows).
Proof.
  apply Forall_forall. intros r Hr. apply in_map_iff in Hr as [r0 [<- _]].
  apply Forall_forall. intros x Hx. apply in_map_iff in Hx as [x0 [<- _]].
  apply np_clip_range.
Qed.

Lemma mapM_const_is_ok {A B} (r : result B) (l : list A) :
  is_ok (mapM (fun _ => r) l) = ((length l =? 0)%nat || is_ok r)%bool.
Proof.
  induction l as [|x l IH]; [reflexivity |].
  simpl. destruct r as [b|e]; cbn [bind]; [| reflexivity].
  destruct (mapM (fun _ => Ok b) l); simpl in *; [reflexivity |].
  rewrite orb_true_r in IH. discriminate.
Qed.

(** ** Lemmas for the further properties *)

Lemma blend_compose (t1 t2 : Q) (l t : tensor) :
  Forall2 Qeq (blend t2 l (blend t1 l t)) (blend (t1 + t2 - t1 * t2) l t).
Proof.
  unfold blend, vadd, vscale. revert t.
  induction l as [|x l IH]; intros [|y t]; simpl; constructor; [ring | apply IH].
Qed.

Lemma blend_same (tau : Q) (l : tensor) : Forall2 Qeq (blend tau l l) l.
Proof.
  unfold blend, vadd, vscale. induction l as [|x l IH]; simpl; constructor; [ring | apply IH].
Qed.

Lemma Forall2_Qeq_trans (l1 l2 l3 : list Q) :
  Forall2 Qeq l1 l2 -> Forall2 Qeq l2 l3 -> Forall2 Qeq l1 l3.
Proof.
  intros H12. revert l3. induction H12 as [|x y l1 l2 Hxy H12 IH]; intros l3 H23;
    inversion H23; subst; constructor; [rewrite Hxy; assumption | apply IH; assumption].
Qed.

Lemma mapM_const_ok {A B} (r : result B) (l : list A) ys :
  mapM (fun _ => r) l = Ok ys -> length ys = length l /\ Forall (fun y => r = Ok y) ys.
Proof.
  revert ys. induction l as [|x l IH]; intros ys E; simpl in E.
  - injection E as <-. split; [reflexivity | constructor].
  - destruct r as [b|e]; cbn [bind] in E; [| discriminate].
    destruct (mapM (fun _ => Ok b) l) as [zs|e] eqn:Ez; cbn [bind] in E; [| discriminate].
    injection E as <-. destruct (IH zs eq_refl) as [H1 H2].
    split; [simpl; congruence | constructor; [reflexivity | exact H2]].
Qed.

Lemma OUNoise_init_reset size mu theta sigma o :
  OUNoise_init size mu theta sigma = Ok o -> ou_state o = ou_mu o.
Proof.
  unfold OUNoise_init. destruct (np_ones size); cbn [bind]; [| discriminate].
  intros E. injection E as <-. reflexivity.
Qed.

Lemma qmax_shift (e m c : Q) : 0 <= c -> Qmax (Qmax e m - c) m == Qmax (e - c) m.
Proof.
  intros Hc. destruct (Qlt_le_dec e m) as [H1|H1].
  - rewrite (Q.max_r e m) by lra.
    rewrite (Q.max_r (m - c) m), (Q.max_r (e - c) m) by lra. reflexivity.
  - rewrite (Q.max_l e m H1). reflexivity.
Qed.

Lemma DDPGAgent_learn_updates_S `{Approximators} `{PyRandom} k a :
  DDPGAgent.learn_updates (S k) a =
    (r <- rb_sample (DDPGAgent.memory a) (DDPGAgent.rng a) ;;
     let '(experiences, p') := r in
     DDPGAgent.learn_updates k
       (DDPGAgent.learn (DDPGAgent.with_rng a p') experiences (DDPGAgent.gamma a))).
Proof. reflexivity. Qed.

Lemma DDPGAgent_learn_updates_eps `{Approximators} `{PyRandom} k : forall a a',
  DDPGAgent.learn_updates (S k) a = Ok a' ->
  0 <= DDPGAgent.cfg_eps_decay (DDPGAgent.cfg a) ->
  DDPGAgent.cfg a' = DDPGAgent.cfg a /\
  DDPGAgent.eps a' ==
    Qmax (DDPGAgent.eps a - inject_Z (Z.of_nat (S k)) * DDPGAgent.cfg_eps_decay (DDPGAgent.cfg a))
         (DDPGAgent.cfg_eps_min (DDPGAgent.cfg a)).
Proof.
  induction k as [|k IH]; intros a a' E Hd; rewrite DDPGAgent_learn_updates_S in E;
    destruct (rb_sample (DDPGAgent.memory a) (DDPGAgent.rng a)) as [[bt p']|];
    cbn [bind] in E; try discriminate.
  - cbn [DDPGAgent.learn_updates] in E. injection E as <-. simpl. split; [reflexivity |].
    apply Q.max_compat; [ring | reflexivity].
  - apply IH in E; [| exact Hd]. destruct E as [Ec Ee]. simpl in Ec, Ee.
    split; [exact Ec |]. rewrite Ee.
    rewrite qmax_shift.
    + apply Q.max_compat; [| reflexivity].
      replace (Z.pos (Pos.of_succ_nat k)) with (Z.of_nat k + 1)%Z by lia.
      replace (Z.of_nat (S (S k))) with (Z.of_nat k + 1 + 1)%Z by lia.
      rewrite !inject_Z_plus. ring.
    + apply Qmult_le_0_compat; [| exact Hd].
      unfold Qle; simpl; lia.
Qed.

Lemma np_clip_id (x : Q) : -1 <= x <= 1 -> np_clip (-1) 1 x = x.
Proof.
  intros [H1 H2]. unfold np_clip, Qmax, Qmin, GenericMinMax.gmax, GenericMinMax.gmin.
  destruct (x ?= -1) eqn:E1.
  all: try (rewrite <- Qlt_alt in E1; lra).
  all: destruct (x ?= 1) eqn:E2; try reflexivity; rewrite <- Qgt_alt in E2; lra.
Qed.

Lemma np_clip_saturate (x : Q) :
  (1 <= x -> np_clip (-1) 1 x == 1) /\ (x <= -1 -> np_clip (-1) 1 x == -1).
Proof.
  unfold np_clip. split; intros Hx.
  - rewrite (Q.max_l x (-1)) by lra. apply Q.min_r. exact Hx.
  - rewrite (Q.max_r x (-1)) by exact Hx. apply Q.min_l. lra.
Qed.

Lemma add_noise_loop_reset `{PyRandom} ns action p :
  map ou_reset (snd (fst (DDPGAgent.add_noise_loop ns action p))) = map ou_reset ns.
Proof.
  revert action p. induction ns as [|[mu t sg x] ns IH]; intros action p; [reflexivity |].
  simpl.
  match goal with |- context [DDPGAgent.add_noise_loop ns ?y ?q] =>
    pose proof (IH y q) as IHy; destruct (DDPGAgent.add_noise_loop ns y q) as [[act' ns''] p2]
  end.
  simpl in *. rewrite IHy. reflexivity.
Qed.

Lemma ou_reset_sample `{PyRandom} o p : ou_reset (snd (fst (ou_sample o p))) = ou_reset o.
Proof. destruct o. reflexivity. Qed.

Lemma fold_rb_append_set b xs :
  fold_left rb_append xs b = rb_set_memory b (deque_extend (rb_maxlen b) (rb_memory b) xs).
Proof.
  revert b. induction xs as [|x xs IH]; intros b; simpl.
  - destruct b; reflexivity.
  - rewrite IH. destruct b; reflexivity.
Qed.

Lemma mapM_rows_err (exps : list Experience) (k start : nat) :
  (start <= length exps < start + k)%nat ->
  mapM (fun i => match nth_error exps i with Some e => Ok e | None => Err IndexError end)
       (seq start k) = Err IndexError.
Proof.
  revert start. induction k as [|k IH]; intros start Hk; [lia |]. simpl.
  destruct (nth_error exps start) as [e|] eqn:E.
  - cbn [bind]. rewrite IH; [reflexivity |].
    assert (start < length exps)%nat by (apply nth_error_Some; congruence). lia.
  - reflexivity.
Qed.

Lemma length_vadd u v : length (vadd u v) = Nat.min (length u) (length v).
Proof. unfold vadd. rewrite length_map, length_combine. reflexivity. Qed.

Lemma length_vsub u v : length (vsub u v) = Nat.min (length u) (length v).
Proof. unfold vsub. rewrite length_map, length_combine. reflexivity. Qed.

Lemma length_vscale c u : length (vscale c u) = length u.
Proof. unfold vscale. apply length_map. Qed.

(** One noise step keeps every coordinate in [[mu, mu + sigma / theta]]. *)
Lemma ou_bound_step (t sg : Q) (mu x xi : list Q) :
  0 < t <= 1 -> 0 <= sg ->
  Forall2 (fun m y => m <= y <= m + sg / t) mu x -> length xi = length x ->
  Forall (fun r => 0 <= r < 1) xi ->
  Forall2 (fun m y => m <= y <= m + sg / t) mu
          (vadd x (vadd (vscale t (vsub mu x)) (vscale sg xi))).
Proof.
  intros Ht Hs HF. revert xi.
  induction HF as [|m y mu x Hmy HF IH]; intros [|r xi] Hl Hr; simpl in *; try discriminate;
    [constructor |].
  inversion Hr as [|r' xi' Hr0 Hr1]; subst.
  constructor.
  - assert (Hw : sg == t * (sg / t)).
    { field. intros E. destruct Ht as [Ht0 _]. apply (Qlt_not_eq 0 t Ht0). symmetry. exact E. }
    assert (Hw0 : 0 <= t * (sg / t)) by (rewrite <- Hw; exact Hs).
    revert Hmy Hw Hw0. generalize (sg / t). intros w Hmy Hw Hw0. rewrite Hw. nra.
  - apply IH; [congruence | exact Hr1].
Qed.

Lemma ou_bounded_gen `{PyRandom} k : forall o p,
  0 < ou_theta o <= 1 -> 0 <= ou_sigma o ->
  Forall2 (fun m y => m <= y <= m + ou_sigma o / ou_theta o) (ou_mu o) (ou_state o) ->
  Forall2 (fun m y => m <= y <= m + ou_sigma o / ou_theta o)
          (ou_mu o) (ou_state (fst (ou_sample_n k o p))).
Proof.
  induction k as [|k IH]; intros [mu t sg x] p Ht Hs HF; [exact HF |].
  simpl in Ht, Hs, HF |- *.
  apply (IH (mkOUNoise mu t sg _)); [exact Ht | exact Hs |]. simpl.
  apply ou_bound_step; [exact Ht | exact Hs | exact HF | rewrite length_map, length_seq; reflexivity |].
  apply Forall_forall. intros r Hr. apply in_map_iff in Hr as [q [<- _]].
  apply random_float_range.
Qed.

Lemma ou_contract_step (t sg q q' : Q) (mu x xi : list Q) :
  sg == 0 -> q' == q * (1 - t) -> length x = length mu -> length xi = length x ->
  Forall2 Qeq
    (map (fun '(m, y) => m + q * (y - m))
         (combine mu (vadd x (vadd (vscale t (vsub mu x)) (vscale sg xi)))))
    (map (fun '(m, y) => m + q' * (y - m)) (combine mu x)).
Proof.
  intros Hs Hq. revert x xi.
  induction mu as [|m mu IH]; intros [|y x] [|r xi] Hl Hxi; simpl in *; try discriminate;
    constructor.
  - rewrite Hs, Hq. ring.
  - apply IH; congruence.
Qed.

Lemma ou_contract_zero (mu x : list Q) (q : Q) :
  q == 1 -> length x = length mu ->
  Forall2 Qeq x (map (fun '(m, y) => m + q * (y - m)) (combine mu x)).
Proof.
  intros Hq. revert x. induction mu as [|m mu IH]; intros [|y x] Hl; simpl in *;
    try discriminate; constructor.
  - rewrite Hq. ring.
  - apply IH. congruence.
Qed.

(** * Claims *)

(** C1.  In a learning phase the TD target of the [i]-th sampled transition
    is [reward + gamma * critic_target(next_state, actor_target(next_state)) * (1 - done)];
    for a transition with [done = 1] it equals the reward, whatever [gamma]
    and the target critic's output. *)
Theorem learn_td_target `{Approximators} (n : Nets) (b : Batch) (g : Q) (i : nat)
    (r d : Q) (ns : list Q) :
  nth_error (b_rewards b) i = Some r ->
  nth_error (b_next_states b) i = Some ns ->
  nth_error (b_dones b) i = Some d ->
  nth_error (learn_q_targets n b g) i =
    Some (r + g * critic_forward (net_params (params n) (critic_target n)) ns
                   (actor_forward (net_params (params n) (actor_target n)) ns) * (1 - d)) /\
  (d == 1 -> forall y, nth_error (learn_q_targets n b g) i = Some y -> y == r).
Proof.
  intros Hr Hns Hd.
  assert (E : nth_error (learn_q_targets n b g) i =
    Some (r + g * critic_forward (net_params (params n) (critic_target n)) ns
                   (actor_forward (net_params (params n) (actor_target n)) ns) * (1 - d))).
  { unfold learn_q_targets. apply nth_error_td_targets; auto.
    rewrite nth_error_map.
    rewrite (nth_error_combine _ _ i ns (actor_forward (net_params (params n) (actor_target n)) ns));
      auto.
    rewrite nth_error_map, Hns. reflexivity. }
  split; [exact E |].
  intros Hd1 y Hy. rewrite E in Hy. injection Hy as <-. rewrite Hd1. ring.
Qed.

Lemma learn_td_target_witness :
  nth_error (@learn_q_targets toy_approximators nets_c1 batch_c1 (99#100)) 0 = Some (5 + (99#100) * 6 * (1 - 1)) /\
  (forall y, nth_error (@learn_q_targets toy_approximators nets_c1 batch_c1 (99#100)) 0 = Some y -> y == 5).
Proof.
  destruct (@learn_td_target toy_approximators nets_c1 batch_c1 (99#100) 0 5 1 [3]
              eq_refl eq_refl eq_refl) as [E Hy].
  split.
  - rewrite E. reflexivity.
  - apply Hy. reflexivity.
Defined.

(** C5.  Inserting any sequence of transitions into a freshly built buffer
    keeps its size at most the capacity and its contents equal to the last
    [capacity] insertions; after [capacity + k] insertions ([k > 0]) the size
    is the capacity and the contents are the last [capacity] transitions. *)
Theorem replay_buffer_fifo (action_size buffer_size batch_size num_agents : Z)
    (b : ReplayBuffer) (xs : list Experience) :
  ReplayBuffer_init action_size buffer_size batch_size num_agents = Ok b ->
  let b' := fold_left rb_append xs b in
  (rb_len b' <= buffer_size)%Z /\
  rb_memory b' = lastn (Z.to_nat buffer_size) xs /\
  (forall k, (0 < k)%nat -> length xs = (Z.to_nat buffer_size + k)%nat ->
     rb_len b' = buffer_size /\ rb_memory b' = skipn k xs).
Proof.
  unfold ReplayBuffer_init. intros Hb.
  destruct (buffer_size <? 0)%Z eqn:E; [discriminate |].
  injection Hb as <-. apply Z.ltb_ge in E.
  assert (M : rb_memory (fold_left rb_append xs
                 (mkReplayBuffer action_size [] buffer_size batch_size num_agents))
              = lastn (Z.to_nat buffer_size) xs).
  { rewrite fold_rb_append_memory. simpl. apply deque_extend_lastn; simpl; lia. }
  simpl. unfold rb_len. rewrite M. split; [| split; [reflexivity |]].
  - pose proof (length_lastn_le (Z.to_nat buffer_size) xs). lia.
  - intros k Hk Hlen. unfold lastn. rewrite length_skipn.
    replace (length xs - Z.to_nat buffer_size)%nat with k by lia.
    split; [lia | reflexivity].
Qed.

Lemma replay_buffer_fifo_witness :
  let xs := [experience0; mkExperience [1] [1] 1 [1] false; mkExperience [2] [2] 2 [2] true] in
  let b' := fold_left rb_append xs (mkReplayBuffer 1 [] 2 1 1) in
  (rb_len b' <= 2)%Z /\ rb_memory b' = lastn 2 xs /\
  (forall k, (0 < k)%nat -> length xs = (2 + k)%nat -> rb_len b' = 2%Z /\ rb_memory b' = skipn k xs).
Proof.
  exact (replay_buffer_fifo 1 2 1 1 (mkReplayBuffer 1 [] 2 1 1) _ eq_refl).
Defined.

(** C6 (as the code has it).  [ReplayBuffer.sample] draws the positions
    with [random.sample], which raises unless [0 <= batch_size <= len(memory)];
    the positions are the selection at a uniform draw among all ordered
    selections of [batch_size] distinct positions, each listed exactly once.
    The five [np.vstack] calls then raise on an empty batch and on sampled
    states, actions or next states of different lengths.  So sampling
    succeeds exactly when [0 < batch_size <= len(memory)] and the chosen
    transitions can be stacked; for a buffer whose transitions all have
    stackable widths, exactly when [0 < batch_size <= len(memory)].  On
    success it returns five aligned sequences of length [batch_size] built
    from the chosen transitions, each of which is in the memory.  Sampling
    does not consume the memory: learning phases leave it as it was. *)
Theorem rb_sample_contract `{Approximators} `{PyRandom} (b : ReplayBuffer) (p : nat) :
  let k := rb_batch_size b in
  let mem := rb_memory b in
  let arrs := arrangements (Z.to_nat k) (seq 0 (length mem)) in
  let chosen := map (fun i => nth i mem experience0) (nth (randbelow p (length arrs)) arrs []) in
  (is_ok (rb_sample b p) = true <->
     (0 < k)%Z /\ (k <= rb_len b)%Z /\ batch_uniform chosen = true) /\
  (batch_uniform mem = true ->
     (is_ok (rb_sample b p) = true <-> (0 < k)%Z /\ (k <= rb_len b)%Z)) /\
  (forall bt p', rb_sample b p = Ok (bt, p') ->
     p' = S p /\
     exists ix,
       ix = nth (randbelow p (length arrs)) arrs [] /\
       length ix = Z.to_nat k /\ NoDup ix /\ (forall i, In i ix -> (i < length mem)%nat) /\
       let es := map (fun i => nth i mem experience0) ix in
       (forall e, In e es -> In e mem) /\
       bt = mkBatch (map e_state es) (map e_action es) (map e_reward es)
                    (map e_next_state es) (map (fun e => done_to_float (e_done e)) es)) /\
  (forall ix, In ix arrs <->
     length ix = Z.to_nat k /\ NoDup ix /\ (forall i, In i ix -> (i < length mem)%nat)) /\
  NoDup arrs /\
  (forall n a a', DDPGAgent.learn_updates n a = Ok a' -> DDPGAgent.memory a' = DDPGAgent.memory a) /\
  (forall n a a', DDPGAgentUpdated.learn_updates n a = Ok a' ->
     DDPGAgentUpdated.memory a' = DDPGAgentUpdated.memory a).
Proof.
  cbv zeta. rewrite rb_sample_eq.
  assert (Harr : forall ix,
     In ix (arrangements (Z.to_nat (rb_batch_size b)) (seq 0 (length (rb_memory b)))) <->
     length ix = Z.to_nat (rb_batch_size b) /\ NoDup ix /\
     (forall i, In i ix -> (i < length (rb_memory b))%nat)) by (intros ix; apply in_arrangements_seq).
  assert (Hnd : NoDup (arrangements (Z.to_nat (rb_batch_size b)) (seq 0 (length (rb_memory b)))))
    by apply NoDup_arrangements, seq_NoDup.
  assert (Hm1 := @DDPGAgent_learn_updates_memory _ _).
  assert (Hm2 := @DDPGAgentUpdated_learn_updates_memory _ _).
  set (arrs := arrangements (Z.to_nat (rb_batch_size b)) (seq 0 (length (rb_memory b)))) in *.
  set (ix0 := nth (randbelow p (length arrs)) arrs []).
  unfold rb_len.
  destruct ((rb_batch_size b <? 0)%Z || (Z.of_nat (length (rb_memory b)) <? rb_batch_size b)%Z)%bool
    eqn:E.
  - assert (Hbad : ~ ((0 < rb_batch_size b)%Z /\ (rb_batch_size b <= Z.of_nat (length (rb_memory b)))%Z)).
    { intros [H1 H2]. apply orb_true_iff in E as [E|E]; apply Z.ltb_lt in E; lia. }
    split; [| split; [| split; [| split; [| split; [| split]]]]];
      [ split; [discriminate | intros [H1 [H2 _]]; exfalso; exact (Hbad (conj H1 H2))]
      | intros _; split; [discriminate | intros H12; exfalso; exact (Hbad H12)]
      | intros bt p' Hs; discriminate
      | exact Harr | exact Hnd | exact Hm1 | exact Hm2 ].
  - apply orb_false_iff in E as [E1 E2]. apply Z.ltb_ge in E1, E2.
    assert (Hin : In ix0 arrs).
    { apply nth_In, randbelow_lt, arrangements_seq_nonempty. lia. }
    pose proof (proj1 (Harr ix0) Hin) as [Hlen [Hnd0 Hlt]].
    assert (Hsub : incl (map (fun i => nth i (rb_memory b) experience0) ix0) (rb_memory b)).
    { intros e He. apply in_map_iff in He as [i [<- Hi]]. apply nth_In, Hlt, Hi. }
    assert (Hclen : length (map (fun i => nth i (rb_memory b) experience0) ix0) =
                    Z.to_nat (rb_batch_size b)) by (rewrite length_map; exact Hlen).
    assert (Hsucc : forall bt,
      Ok (bt, S p) = Ok (bt, S p) ->
      let es := map (fun i => nth i (rb_memory b) experience0) ix0 in
      batch_uniform es = true ->
      bt = mkBatch (map e_state es) (map e_action es) (map e_reward es)
                   (map e_next_state es) (map (fun e => done_to_float (e_done e)) es) ->
      S p = S p /\
      exists ix, ix = ix0 /\ length ix = Z.to_nat (rb_batch_size b) /\ NoDup ix /\
        (forall i, In i ix -> (i < length (rb_memory b))%nat) /\
        let es := map (fun i => nth i (rb_memory b) experience0) ix in
        (forall e, In e es -> In e (rb_memory b)) /\
        bt = mkBatch (map e_state es) (map e_action es) (map e_reward es)
                     (map e_next_state es) (map (fun e => done_to_float (e_done e)) es)).
    { intros bt _ es _ Hbt. split; [reflexivity |]. exists ix0. auto 7. }
    remember (map (fun i => nth i (rb_memory b) experience0) ix0) as chosen eqn:Ech.
    rewrite stack_experiences_spec.
    destruct chosen as [|c0 cs].
    + simpl in Hclen.
      split; [| split; [| split; [| split; [| split; [| split]]]]];
        [ split; [discriminate | intros [H1 _]; lia]
        | intros _; split; [discriminate | intros [H1 _]; lia]
        | intros bt p' Hs; discriminate
        | exact Harr | exact Hnd | exact Hm1 | exact Hm2 ].
    + simpl in Hclen.
      destruct (batch_uniform (c0 :: cs)) eqn:Eu.
      * split; [| split; [| split; [| split; [| split; [| split]]]]];
          [ split; [intros _; split; [lia | split; [lia | reflexivity]] | reflexivity]
          | intros _; split; [intros _; split; lia | reflexivity]
          | | exact Harr | exact Hnd | exact Hm1 | exact Hm2 ].
        intros bt p' Hs. injection Hs as <- <-.
        exact (Hsucc _ eq_refl Eu eq_refl).
      * split; [| split; [| split; [| split; [| split; [| split]]]]];
          [ split; [discriminate | intros [_ [_ Hu]]; discriminate]
          | intros Hmem; exfalso; rewrite (batch_uniform_incl _ _ Hmem Hsub) in Eu; discriminate
          | intros bt p' Hs; discriminate
          | exact Harr | exact Hnd | exact Hm1 | exact Hm2 ].
Qed.

(** C6 fails as stated at batch size 0: [0 <= len(memory)], yet sampling
    raises ([np.vstack] of an empty list) instead of returning empty
    sequences.  It fails as well for a buffer holding two transitions whose
    states have different lengths ([add] does not check them): a batch of
    both raises in [np.vstack]. *)
Lemma rb_sample_zero_batch_counterexample :
  (rb_batch_size (mkReplayBuffer 1 [experience0] 10 0 1) <= rb_len (mkReplayBuffer 1 [experience0] 10 0 1))%Z /\
  @rb_sample toy_random (mkReplayBuffer 1 [experience0] 10 0 1) 0 = Err ValueError /\
  (rb_batch_size buffer_mixed_widths <= rb_len buffer_mixed_widths)%Z /\
  @rb_sample toy_random buffer_mixed_widths 0 = Err ValueError.
Proof. split; [unfold rb_len; simpl; lia | split; [reflexivity | split; [vm_compute; discriminate | vm_compute; reflexivity]]]. Qed.

(** C8.  [OUNoise.reset] sets the state to the mean vector; [sample]
    replaces the state by [x + theta * (mu - x) + sigma * xi] for fresh draws
    [xi] of [random.random()] in [[0,1)] and returns the new state; with
    [theta = 0] and [sigma = 0] the state stays at the mean through any
    number of samples after a reset. *)
Theorem ou_noise_contract `{PyRandom} (o : OUNoise) (p : nat) :
  ou_state (ou_reset o) = ou_mu o /\ ou_mu (ou_reset o) = ou_mu o /\
  (let x := ou_state o in
   let xi := map random_float (seq p (length x)) in
   let '(v, o', p') := ou_sample o p in
   ou_state o' = vadd x (vadd (vscale (ou_theta o) (vsub (ou_mu o) x)) (vscale (ou_sigma o) xi)) /\
   v = ou_state o' /\
   ou_mu o' = ou_mu o /\ ou_theta o' = ou_theta o /\ ou_sigma o' = ou_sigma o /\
   (forall z, In z xi -> 0 <= z /\ z < 1) /\
   p' = (p + length x)%nat) /\
  (ou_theta o == 0 -> ou_sigma o == 0 ->
   forall k p0, Forall2 Qeq (ou_state (fst (ou_sample_n k (ou_reset o) p0))) (ou_mu o)).
Proof.
  split; [reflexivity | split; [reflexivity | split]].
  - cbv zeta. unfold ou_sample. simpl. repeat split; try reflexivity.
    all: match goal with H : In _ _ |- _ =>
           apply in_map_iff in H as [q [<- _]]; apply random_float_range end.
  - intros Ht Hs k.
    assert (Gen : forall k o' p0, ou_mu o' = ou_mu o -> ou_theta o' = ou_theta o ->
              ou_sigma o' = ou_sigma o -> Forall2 Qeq (ou_state o') (ou_mu o) ->
              Forall2 Qeq (ou_state (fst (ou_sample_n k o' p0))) (ou_mu o)).
    { clear k. induction k as [|k IH]; intros o' p0 Em Et Es HF; simpl; [exact HF |].
      apply IH; simpl; auto.
      rewrite Em. apply ou_step_zero_params.
      - rewrite Et. exact Ht.
      - rewrite Es. exact Hs.
      - exact HF.
      - rewrite length_map, length_seq. reflexivity. }
    intros p0. apply Gen; try reflexivity. apply Forall2_Qeq_refl.
Qed.

(** C9.  The actor step of a learning phase writes only actor-local
    parameters: every other slot, in particular every critic-local one,
    keeps its value.  The slot layout that makes this hold is set up by the
    constructors of both files and kept by every learning phase. *)
Theorem actor_update_frame `{Approximators} :
  (forall c p g a, DDPGAgent.Agent_init c p g = Ok a -> nets_wf (DDPGAgent.nets a)) /\
  (forall c p g a, DDPGAgentUpdated.Agent_init c p g = Ok a -> nets_wf (DDPGAgentUpdated.nets a)) /\
  (forall n b g, nets_wf n -> nets_wf (learn_nets n b g)) /\
  (forall n b y, nets_wf n -> nets_wf (actor_update (critic_update n b y) b)) /\
  (forall n b, nets_wf n ->
     (forall i, ~ In i (actor_local n) -> get (params (actor_update n b)) i = get (params n) i) /\
     (forall i, In i (critic_local n) -> get (params (actor_update n b)) i = get (params n) i) /\
     critic_local (actor_update n b) = critic_local n).
Proof.
  assert (Frame : forall n b, nets_wf n ->
     forall i, ~ In i (actor_local n) -> get (params (actor_update n b)) i = get (params n) i).
  { intros n b [H1 _] i Hi. unfold actor_update, opt_step.
    destruct (adam_step _ _ _ _ _) as [ps' m']. simpl.
    apply write_params_frame. rewrite H1. exact Hi. }
  split; [| split; [| split; [| split]]].
  - intros c p g a. unfold DDPGAgent.Agent_init.
    destruct (build_nets _ _ _ _ _ _ g) as [[n g']|] eqn:Eb; cbn [bind]; [| discriminate].
    pose proof (build_nets_wf _ _ _ _ _ _ _ _ _ Eb) as Hwf.
    destruct (mapM _ _); [| discriminate]. cbn [bind].
    destruct (ReplayBuffer_init _ _ _ _); [| discriminate]. cbn [bind].
    intros E. injection E as <-. simpl.
    apply nets_wf_set_params; [exact Hwf |].
    unfold hard_update. rewrite !length_hard_update_slots. reflexivity.
  - intros c p g a. unfold DDPGAgentUpdated.Agent_init.
    destruct (build_nets _ _ _ _ _ _ g) as [[n g']|] eqn:Eb; cbn [bind]; [| discriminate].
    pose proof (build_nets_wf _ _ _ _ _ _ _ _ _ Eb) as Hwf.
    destruct (OUNoise_init _ _ _ _); [| discriminate]. cbn [bind].
    destruct (ReplayBuffer_init _ _ _ _); [| discriminate]. cbn [bind].
    intros E. injection E as <-. exact Hwf.
  - apply learn_nets_wf.
  - intros n b y Hwf. apply actor_update_wf, critic_update_wf, Hwf.
  - intros n b Hwf. split; [apply Frame, Hwf |]. split.
    + intros i Hi. apply Frame; [exact Hwf |].
      destruct Hwf as [_ [_ [Hnd _]]]. intros Ha.
      apply (NoDup_app_disjoint _ _ i Hnd Ha).
      apply in_or_app. right. apply in_or_app. left. exact Hi.
    + unfold actor_update. destruct (opt_step _ _ _). reflexivity.
Qed.

(** C3 (code defect).  [Agent.learn] soft-updates the targets with the
    module constant [TAU = 1e-3], not with the agent's configured
    [self.tau].  An agent of either file built with [tau = 1] and
    single-tensor networks: after one learning phase the actor-local tensor
    (slot 0) is [0.9], yet the actor-target tensor (slot 1) is
    [0.001 * 0.9 + 0.999 * 1 = 0.9999] (resp. [0.001 * 0.9 + 0.999 * 2]),
    not the local tensor as a rate of 1 would give. *)
Theorem learn_soft_update_ignores_configured_tau :
  (exists a,
     @DDPGAgent.Agent_init toy_approximators config_tau1 0 0 = Ok a /\
     DDPGAgent.tau a = 1 /\
     let n := DDPGAgent.nets (@DDPGAgent.learn toy_approximators a batch_c1 (DDPGAgent.gamma a)) in
     actor_local n = [0%nat] /\ actor_target n = [1%nat] /\
     map Qred (get (params n) 0) = [9 # 10] /\
     map Qred (get (params n) 1) = [9999 # 10000] /\
     get (params (DDPGAgent.nets a)) 1 = [1]) /\
  (exists a,
     @DDPGAgentUpdated.Agent_init toy_approximators config_updated_tau1 0 0 = Ok a /\
     DDPGAgentUpdated.tau a = 1 /\
     let n := DDPGAgentUpdated.nets
                (@DDPGAgentUpdated.learn toy_approximators a batch_c1 (DDPGAgentUpdated.gamma a)) in
     actor_local n = [0%nat] /\ actor_target n = [1%nat] /\
     map Qred (get (params n) 0) = [9 # 10] /\
     map Qred (get (params n) 1) = [19989 # 10000] /\
     get (params (DDPGAgentUpdated.nets a)) 1 = [2]).
Proof.
  split; eexists; split; [reflexivity | | reflexivity |]; vm_compute; repeat split; reflexivity.
Qed.

(** C4 (code defect).  [ddpg_agent.py] aligns the targets by [hard_update]
    ([DDPGAgent_init_targets_aligned]); [ddpg_agent_updated.py] never calls
    [hard_update], so each target keeps the weights its own constructor
    drew.  With constructors whose weights come from torch's generator, the
    first file's actor target equals its actor local, the second's does not. *)
Theorem updated_init_skips_hard_update :
  (exists a,
     @DDPGAgent.Agent_init toy_approximators config_tau1 0 0 = Ok a /\
     actor_local (DDPGAgent.nets a) = [0%nat] /\ actor_target (DDPGAgent.nets a) = [1%nat] /\
     get (params (DDPGAgent.nets a)) 1 = get (params (DDPGAgent.nets a)) 0) /\
  (exists a,
     @DDPGAgentUpdated.Agent_init toy_approximators config_updated_tau1 0 0 = Ok a /\
     actor_local (DDPGAgentUpdated.nets a) = [0%nat] /\
     actor_target (DDPGAgentUpdated.nets a) = [1%nat] /\
     get (params (DDPGAgentUpdated.nets a)) 0 = [1] /\
     get (params (DDPGAgentUpdated.nets a)) 1 = [2]).
Proof.
  split; eexists; split; [reflexivity | | reflexivity |]; vm_compute; repeat split; reflexivity.
Qed.

(** C2 (as the code has it).  [step] first appends the agents'
    transitions to the buffer, one by one.  This write happens on every call
    and stays when the call raises afterwards; a missing row raises
    [IndexError] after the rows before it are written.  With all rows
    present:
    - for a positive cadence [time_update], [step] runs the learning loop
      exactly when [time_step mod time_update = 0] and the buffer holds more
      than the batch size, and otherwise returns with only the buffer
      written;
    - for [time_update = 0], [time_step % 0] raises [ZeroDivisionError];
    - for a negative cadence, Python's [%] is never positive, so the cadence
      test never skips: [step] learns whenever the buffer holds more than the
      batch size.
    The learning loop runs [learning_rate] phases, each drawing a fresh
    batch (one generator draw per phase) and learning from it; it completes
    exactly when the error-monad loop [learn_updates] succeeds. *)
Theorem step_cadence `{Approximators} `{PyRandom} :
  (forall a t exps,
     let n := Z.to_nat (rb_num_agents (DDPGAgent.memory a)) in
     let c := DDPGAgent.time_update a in
     let mem := fold_left rb_append (firstn n exps) (DDPGAgent.memory a) in
     let a1 := DDPGAgent.with_memory a mem in
     let L := DDPGAgent.learn_loop (Z.to_nat (DDPGAgent.learning_rate a)) a1 in
     DDPGAgent.memory (fst (DDPGAgent.step a t exps)) = mem /\
     ((length exps < n)%nat -> DDPGAgent.step a t exps = (a1, Some IndexError)) /\
     ((n <= length exps)%nat -> (0 < c)%Z ->
        DDPGAgent.step a t exps =
          if ((t mod c =? 0)%Z && (DDPGAgent.BATCH_SIZE <? rb_len mem)%Z)%bool
          then L else (a1, None)) /\
     ((n <= length exps)%nat -> c = 0%Z ->
        DDPGAgent.step a t exps = (a1, Some ZeroDivisionError)) /\
     ((n <= length exps)%nat -> (c < 0)%Z ->
        DDPGAgent.step a t exps =
          if (DDPGAgent.BATCH_SIZE <? rb_len mem)%Z then L else (a1, None))) /\
  (forall k a a', DDPGAgent.learn_loop k a = (a', None) <-> DDPGAgent.learn_updates k a = Ok a') /\
  (forall k a a', DDPGAgent.learn_updates k a = Ok a' -> DDPGAgent.rng a' = (DDPGAgent.rng a + k)%nat) /\
  (forall a t exps,
     let n := Z.to_nat (DDPGAgentUpdated.num_agents a) in
     let c := DDPGAgentUpdated.time_update a in
     let mem := fold_left rb_append (firstn n exps) (DDPGAgentUpdated.memory a) in
     let a1 := DDPGAgentUpdated.with_memory a mem in
     let L := DDPGAgentUpdated.learn_loop (Z.to_nat (DDPGAgentUpdated.learning_rate a)) a1 in
     DDPGAgentUpdated.memory (fst (DDPGAgentUpdated.step a t exps)) = mem /\
     ((length exps < n)%nat -> DDPGAgentUpdated.step a t exps = (a1, Some IndexError)) /\
     ((n <= length exps)%nat -> (0 < c)%Z ->
        DDPGAgentUpdated.step a t exps =
          if ((t mod c =? 0)%Z && (DDPGAgentUpdated.batch_size a <? rb_len mem)%Z)%bool
          then L else (a1, None)) /\
     ((n <= length exps)%nat -> c = 0%Z ->
        DDPGAgentUpdated.step a t exps = (a1, Some ZeroDivisionError)) /\
     ((n <= length exps)%nat -> (c < 0)%Z ->
        DDPGAgentUpdated.step a t exps =
          if (DDPGAgentUpdated.batch_size a <? rb_len mem)%Z then L else (a1, None))) /\
  (forall k a a', DDPGAgentUpdated.learn_loop k a = (a', None) <->
     DDPGAgentUpdated.learn_updates k a = Ok a') /\
  (forall k a a', DDPGAgentUpdated.learn_updates k a = Ok a' ->
     DDPGAgentUpdated.rng a' = (DDPGAgentUpdated.rng a + k)%nat).
Proof.
  split; [| split; [| split; [| split; [| split]]]].
  - intros a t exps. cbv zeta. rewrite DDPGAgent_step_eq. cbv zeta.
    split; [| split; [| split; [| split]]].
    + destruct (_ <=? _)%nat; [| reflexivity].
      destruct (py_mod _ _) as [r|e]; [| reflexivity].
      destruct (r >? 0)%Z; [reflexivity |].
      destruct (_ <? _)%Z; [apply DDPGAgent_learn_loop_memory | reflexivity].
    + intros Hl. destruct (Nat.leb_spec (Z.to_nat (rb_num_agents (DDPGAgent.memory a))) (length exps));
        [lia | reflexivity].
    + intros Hl Hc. destruct (Nat.leb_spec (Z.to_nat (rb_num_agents (DDPGAgent.memory a))) (length exps));
        [| lia].
      destruct (py_mod_pos_test t (DDPGAgent.time_update a) Hc) as [E1 E2].
      rewrite E1, E2. destruct (t mod DDPGAgent.time_update a =? 0)%Z; reflexivity.
    + intros Hl Hc. destruct (Nat.leb_spec (Z.to_nat (rb_num_agents (DDPGAgent.memory a))) (length exps));
        [| lia].
      rewrite Hc, py_mod_zero. reflexivity.
    + intros Hl Hc. destruct (Nat.leb_spec (Z.to_nat (rb_num_agents (DDPGAgent.memory a))) (length exps));
        [| lia].
      destruct (py_mod_neg_test t (DDPGAgent.time_update a) Hc) as [E1 E2].
      rewrite E1, E2. reflexivity.
  - intros k a a'. rewrite DDPGAgent_learn_updates_loop. symmetry. apply learn_loop_ok_iff.
  - apply DDPGAgent_learn_updates_rng.
  - intros a t exps. cbv zeta. rewrite DDPGAgentUpdated_step_eq. cbv zeta.
    split; [| split; [| split; [| split]]].
    + destruct (_ <=? _)%nat; [| reflexivity].
      destruct (py_mod _ _) as [r|e]; [| reflexivity].
      destruct (r >? 0)%Z; [reflexivity |].
      destruct (_ <? _)%Z; [apply DDPGAgentUpdated_learn_loop_memory | reflexivity].
    + intros Hl. destruct (Nat.leb_spec (Z.to_nat (DDPGAgentUpdated.num_agents a)) (length exps));
        [lia | reflexivity].
    + intros Hl Hc. destruct (Nat.leb_spec (Z.to_nat (DDPGAgentUpdated.num_agents a)) (length exps));
        [| lia].
      destruct (py_mod_pos_test t (DDPGAgentUpdated.time_update a) Hc) as [E1 E2].
      rewrite E1, E2. destruct (t mod DDPGAgentUpdated.time_update a =? 0)%Z; reflexivity.
    + intros Hl Hc. destruct (Nat.leb_spec (Z.to_nat (DDPGAgentUpdated.num_agents a)) (length exps));
        [| lia].
      rewrite Hc, py_mod_zero. reflexivity.
    + intros Hl Hc. destruct (Nat.leb_spec (Z.to_nat (DDPGAgentUpdated.num_agents a)) (length exps));
        [| lia].
      destruct (py_mod_neg_test t (DDPGAgentUpdated.time_update a) Hc) as [E1 E2].
      rewrite E1, E2. reflexivity.
  - intros k a a'. rewrite DDPGAgentUpdated_learn_updates_loop. symmetry. apply learn_loop_ok_iff.
  - apply DDPGAgentUpdated_learn_updates_rng.
Qed.

(** Witness of C2: an agent of [ddpg_agent_updated.py] with cadence 1,
    batch size 1 and one stored transition, stepped at time 0 with one
    more: the buffer then holds two transitions, so the call runs its one
    learning phase, which draws a batch and completes. *)
Lemma step_cadence_witness :
  let a := agent_updated_small 1 in
  let e := mkExperience [3] [0] 2 [4] false in
  @DDPGAgentUpdated.step toy_approximators toy_random a 0 [e] =
    @DDPGAgentUpdated.learn_loop toy_approximators toy_random 1
      (DDPGAgentUpdated.with_memory a (fold_left rb_append [e] (DDPGAgentUpdated.memory a))) /\
  snd (@DDPGAgentUpdated.step toy_approximators toy_random a 0 [e]) = None /\
  DDPGAgentUpdated.rng (fst (@DDPGAgentUpdated.step toy_approximators toy_random a 0 [e])) = 1%nat.
Proof.
  cbv zeta.
  destruct (proj1 (proj2 (proj2 (proj2 (@step_cadence toy_approximators toy_random))))
              (agent_updated_small 1) 0%Z [mkExperience [3] [0] 2 [4] false]) as [_ [_ [Hpos _]]].
  cbv zeta in Hpos.
  rewrite (Hpos ltac:(vm_compute; lia) ltac:(vm_compute; reflexivity)).
  split; [vm_compute; reflexivity | split; vm_compute; reflexivity].
Defined.

(** Counterexample to C2: with [time_update = 0], [step] of [ddpg_agent.py]
    writes the transition and then raises [ZeroDivisionError] instead of
    returning; with [time_update = -2] and [time_step = 1], [1 mod -2] is
    not [0], yet [step] of [ddpg_agent_updated.py] learns: it draws a batch
    (the generator advances) and steps the actor ([0.9] in place of [1]). *)
Lemma step_cadence_counterexample :
  (exists a,
     @DDPGAgent.Agent_init toy_approximators config_cadence_zero 0 0 = Ok a /\
     snd (@DDPGAgent.step toy_approximators toy_random a 3 [experience0]) = Some ZeroDivisionError /\
     rb_memory (DDPGAgent.memory (fst (@DDPGAgent.step toy_approximators toy_random a 3 [experience0])))
       = [experience0]) /\
  (1 mod (-2) <> 0)%Z /\
  (let r := @DDPGAgentUpdated.step toy_approximators toy_random (agent_updated_small (-2)) 1
              [mkExperience [3] [0] 2 [4] false] in
   snd r = None /\ DDPGAgentUpdated.rng (fst r) = 1%nat /\
   get (params (DDPGAgentUpdated.nets (agent_updated_small (-2)))) 0 = [1] /\
   map Qred (get (params (DDPGAgentUpdated.nets (fst r))) 0) = [9 # 10]).
Proof.
  split; [eexists; split; [reflexivity | split; vm_compute; reflexivity] |].
  split; [vm_compute; discriminate |].
  vm_compute. repeat split.
Qed.

(** C7 (code defect).  The clamp holds in both files: every coordinate
    returned by [act] lies in [[-1, 1]], with or without noise.  But
    [ddpg_agent.py] adds every agent's noise sample to every row
    ([action += self.noise[i].sample()] broadcasts), so with two agents, a
    zero actor output and draws [0.1] and [0.2], each row receives [0.3];
    [ddpg_agent_updated.py] adds one shared sample [0.1] to both rows. *)
Theorem act_noise_broadcast `{Approximators} `{PyRandom} :
  (forall a st b, Forall (Forall (fun x => -1 <= x <= 1)) (fst (DDPGAgent.act a st b))) /\
  (forall a st b, match DDPGAgentUpdated.act a st b with
                  | Ok r => Forall (Forall (fun x => -1 <= x <= 1)) (fst r)
                  | Err _ => True
                  end) /\
  (exists a,
     @DDPGAgent.Agent_init toy_approximators config_two_agents 1 0 = Ok a /\
     map (map Qred) (fst (@DDPGAgent.act toy_approximators toy_random a [[0]; [0]] true))
       = [[3 # 10]; [3 # 10]]) /\
  (exists a,
     @DDPGAgentUpdated.Agent_init toy_approximators config_updated_two_agents 1 0 = Ok a /\
     match @DDPGAgentUpdated.act toy_approximators toy_random a [[0]; [0]] true with
     | Ok r => map (map Qred) (fst r) = [[1 # 10]; [1 # 10]]
     | Err _ => False
     end).
Proof.
  split; [| split; [| split]].
  - intros a st b. unfold DDPGAgent.act. destruct b.
    + destruct (DDPGAgent.add_noise_loop _ _ _) as [[? ?] ?]. apply clip_rows_range.
    + apply clip_rows_range.
  - intros a st b. unfold DDPGAgentUpdated.act.
    destruct (DDPGAgentUpdated.actor_rows a st); cbn [bind]; [| exact I].
    destruct b.
    + destruct (ou_sample _ _) as [[? ?] ?]. apply clip_rows_range.
    + apply clip_rows_range.
  - eexists. split; [reflexivity | vm_compute; reflexivity].
  - eexists. split; [reflexivity | vm_compute; reflexivity].
Qed.

(** C10 (corrected).  Neither constructor checks [gamma], [tau] or the batch
    size.  [optim.Adam] raises [ValueError] for a negative [lr_actor],
    [lr_critic] or [weight_decay], and for a network without parameters.
    Beyond that, [ddpg_agent.py]'s constructor fails exactly when
    [num_agents > 0] and [action_size < 0] ([np.ones]);
    [ddpg_agent_updated.py]'s fails exactly when [action_size < 0]
    ([np.ones]) or [buffer_size < 0] ([deque(maxlen=...)]). *)
Theorem init_accepts_unchecked_hparams `{Approximators} :
  (forall c p g,
     is_ok (DDPGAgent.Agent_init c p g) =
       (Qle_bool 0 (DDPGAgent.cfg_lr_actor c) && Qle_bool 0 (DDPGAgent.cfg_lr_critic c) &&
        Qle_bool 0 (DDPGAgent.cfg_weight_decay c) &&
        networks_have_params (DDPGAgent.cfg_state_size c) (DDPGAgent.cfg_action_size c)
          (DDPGAgent.cfg_random_seed c) g &&
        ((DDPGAgent.cfg_num_agents c <=? 0)%Z || (0 <=? DDPGAgent.cfg_action_size c)%Z))%bool) /\
  (forall c p g,
     is_ok (DDPGAgentUpdated.Agent_init c p g) =
       (Qle_bool 0 (DDPGAgentUpdated.cfg_lr_actor c) && Qle_bool 0 (DDPGAgentUpdated.cfg_lr_critic c) &&
        Qle_bool 0 (DDPGAgentUpdated.cfg_weight_decay c) &&
        networks_have_params (DDPGAgentUpdated.cfg_state_size c) (DDPGAgentUpdated.cfg_action_size c)
          (DDPGAgentUpdated.cfg_random_seed c) g &&
        ((0 <=? DDPGAgentUpdated.cfg_action_size c)%Z &&
         (0 <=? DDPGAgentUpdated.cfg_buffer_size c)%Z))%bool).
Proof.
  split.
  - intros c p g. unfold DDPGAgent.Agent_init.
    pose proof (build_nets_is_ok (DDPGAgent.cfg_state_size c) (DDPGAgent.cfg_action_size c)
                  (DDPGAgent.cfg_random_seed c) (DDPGAgent.cfg_lr_actor c) (DDPGAgent.cfg_lr_critic c)
                  (DDPGAgent.cfg_weight_decay c) g) as Eb.
    destruct (build_nets _ _ _ _ _ _ g) as [[n g']|e]; cbn [bind]; rewrite <- Eb;
      [cbn [andb] | reflexivity].
    pose proof (mapM_const_is_ok (OUNoise_init (DDPGAgent.cfg_action_size c) (DDPGAgent.cfg_mu c)
                  (DDPGAgent.cfg_theta c) (DDPGAgent.cfg_sigma c))
                  (seq 0 (Z.to_nat (DDPGAgent.cfg_num_agents c)))) as E.
    rewrite length_seq in E.
    assert (En : (Z.to_nat (DDPGAgent.cfg_num_agents c) =? 0)%nat =
                 (DDPGAgent.cfg_num_agents c <=? 0)%Z).
    { destruct (Z.leb_spec (DDPGAgent.cfg_num_agents c) 0);
        [apply Nat.eqb_eq; lia | apply Nat.eqb_neq; lia]. }
    assert (Ea : is_ok (OUNoise_init (DDPGAgent.cfg_action_size c) (DDPGAgent.cfg_mu c)
                         (DDPGAgent.cfg_theta c) (DDPGAgent.cfg_sigma c)) =
                 (0 <=? DDPGAgent.cfg_action_size c)%Z).
    { unfold OUNoise_init, np_ones.
      destruct (Z.ltb_spec (DDPGAgent.cfg_action_size c) 0), (Z.leb_spec 0 (DDPGAgent.cfg_action_size c));
        first [lia | reflexivity]. }
    rewrite En, Ea in E. rewrite <- E.
    destruct (mapM _ _); reflexivity.
  - intros c p g. unfold DDPGAgentUpdated.Agent_init.
    pose proof (build_nets_is_ok (DDPGAgentUpdated.cfg_state_size c) (DDPGAgentUpdated.cfg_action_size c)
                  (DDPGAgentUpdated.cfg_random_seed c) (DDPGAgentUpdated.cfg_lr_actor c)
                  (DDPGAgentUpdated.cfg_lr_critic c) (DDPGAgentUpdated.cfg_weight_decay c) g) as Eb.
    destruct (build_nets _ _ _ _ _ _ g) as [[n g']|e]; cbn [bind]; rewrite <- Eb;
      [cbn [andb] | reflexivity].
    unfold OUNoise_init, np_ones, ReplayBuffer_init.
    destruct (Z.ltb_spec (DDPGAgentUpdated.cfg_action_size c) 0),
             (Z.leb_spec 0 (DDPGAgentUpdated.cfg_action_size c)); try lia; cbn [bind];
      destruct (Z.ltb_spec (DDPGAgentUpdated.cfg_buffer_size c) 0),
               (Z.leb_spec 0 (DDPGAgentUpdated.cfg_buffer_size c)); try lia; reflexivity.
Qed.

(** Counterexample to C10: both constructors accept [gamma = 2] and
    [tau = 0]; the second also accepts [batch_size = 0] and [buffer_size = 0].
    The networks of the toy approximators have parameters. *)
Lemma init_bad_hparams_counterexample :
  is_ok (@DDPGAgent.Agent_init toy_approximators config_bad_hparams 0 0) = true /\
  is_ok (@DDPGAgentUpdated.Agent_init toy_approximators config_updated_bad_hparams 0 0) = true.
Proof. split; vm_compute; reflexivity. Qed.

(** * Further properties of the code *)

(** X1.  [Agent.soft_update]: two soft updates of the same pair with rates
    [t1] then [t2] give, tensor by tensor, the values of one soft update with
    rate [t1 + t2 - t1 * t2]. *)
Theorem soft_update_twice (local target : list nat) (t1 t2 : Q) (s : store) :
  NoDup target -> (forall i, In i target -> ~ In i local) ->
  (forall i, In i target -> (i < length s)%nat) -> length local = length target ->
  forall j, Forall2 Qeq (get (soft_update local target t2 (soft_update local target t1 s)) j)
                        (get (soft_update local target (t1 + t2 - t1 * t2) s) j).
Proof.
  intros Hnd Hdis Hlen Hll j.
  destruct (soft_update_slots_spec t1 target local s Hnd Hdis Hlen) as [A1 A2].
  assert (Hlen1 : forall i, In i target -> (i < length (soft_update local target t1 s))%nat).
  { intros i Hi. unfold soft_update. rewrite length_soft_update_slots. auto. }
  destruct (soft_update_slots_spec t2 target local _ Hnd Hdis Hlen1) as [B1 B2].
  destruct (soft_update_slots_spec (t1 + t2 - t1 * t2) target local s Hnd Hdis Hlen) as [C1 C2].
  unfold soft_update in *.
  destruct (In_dec Nat.eq_dec j target) as [Hj | Hj].
  - apply In_nth_error in Hj as [k Hk].
    assert (Hk' : nth_error local k <> None).
    { apply nth_error_Some. rewrite Hll. apply nth_error_Some. congruence. }
    destruct (nth_error local k) as [l|] eqn:Hl; [| contradiction].
    rewrite (B1 k j l Hk Hl), (C1 k j l Hk Hl), (A1 k j l Hk Hl).
    rewrite (A2 l) by (intros Hin; exact (Hdis l Hin (nth_error_In _ _ Hl))).
    apply blend_compose.
  - rewrite B2, A2, C2 by exact Hj. apply Forall2_Qeq_refl.
Qed.

Lemma soft_update_twice_witness :
  NoDup [1%nat] /\ (forall i, In i [1%nat] -> ~ In i [0%nat]) /\
  (forall i, In i [1%nat] -> (i < length [[1]; [3]])%nat) /\ length [0%nat] = length [1%nat] /\
  Forall2 Qeq (get (soft_update [0%nat] [1%nat] (1#2) (soft_update [0%nat] [1%nat] (1#2) [[1]; [3]])) 1)
              (get (soft_update [0%nat] [1%nat] ((1#2) + (1#2) - (1#2) * (1#2)) [[1]; [3]]) 1).
Proof.
  assert (H1 : NoDup [1%nat]) by (constructor; [simpl; tauto | constructor]).
  assert (H2 : forall i, In i [1%nat] -> ~ In i [0%nat]).
  { intros i [<- | []] [H | []]. discriminate. }
  assert (H3 : forall i, In i [1%nat] -> (i < length [[1]; [3]])%nat).
  { intros i [<- | []]. simpl. lia. }
  split; [exact H1 | split; [exact H2 | split; [exact H3 | split; [reflexivity |]]]].
  apply (soft_update_twice [0%nat] [1%nat] (1#2) (1#2) [[1]; [3]] H1 H2 H3 eq_refl).
Defined.

(** X2.  [Agent.hard_update]: each target tensor becomes the local tensor at
    the same position and every other tensor is untouched; a soft update
    with any rate that follows it keeps the target equal to the local. *)
Theorem hard_update_then_soft (local target : list nat) (s : store) :
  NoDup target -> (forall i, In i target -> ~ In i local) ->
  (forall i, In i target -> (i < length s)%nat) ->
  (forall k t l, nth_error target k = Some t -> nth_error local k = Some l ->
     get (hard_update target local s) t = get s l /\
     forall tau, Forall2 Qeq (get (soft_update local target tau (hard_update target local s)) t)
                             (get s l)) /\
  (forall j, ~ In j target -> get (hard_update target local s) j = get s j).
Proof.
  intros Hnd Hdis Hlen. unfold hard_update.
  destruct (hard_update_slots_spec target local s Hnd Hdis Hlen) as [H1 H2].
  assert (Hlen1 : forall i, In i target -> (i < length (hard_update_slots target local s))%nat).
  { intros i Hi. rewrite length_hard_update_slots. auto. }
  split; [| exact H2].
  intros k t l Ht Hl. split; [exact (H1 k t l Ht Hl) |].
  intros tau.
  destruct (soft_update_slots_spec tau target local _ Hnd Hdis Hlen1) as [S1 _].
  unfold soft_update. rewrite (S1 k t l Ht Hl), (H1 k t l Ht Hl).
  rewrite (H2 l) by (intros Hin; exact (Hdis l Hin (nth_error_In _ _ Hl))).
  apply blend_same.
Qed.

Lemma hard_update_then_soft_witness :
  NoDup [1%nat] /\ (forall i, In i [1%nat] -> ~ In i [0%nat]) /\
  (forall i, In i [1%nat] -> (i < length [[1]; [3]])%nat) /\
  get (hard_update [1%nat] [0%nat] [[1]; [3]]) 1 = [1].
Proof.
  assert (H1 : NoDup [1%nat]) by (constructor; [simpl; tauto | constructor]).
  assert (H2 : forall i, In i [1%nat] -> ~ In i [0%nat]).
  { intros i [<- | []] [H | []]. discriminate. }
  assert (H3 : forall i, In i [1%nat] -> (i < length [[1]; [3]])%nat).
  { intros i [<- | []]. simpl. lia. }
  split; [exact H1 | split; [exact H2 | split; [exact H3 |]]].
  exact (proj1 (proj1 (hard_update_then_soft [0%nat] [1%nat] [[1]; [3]] H1 H2 H3) 0%nat 1%nat 0%nat
                  eq_refl eq_refl)).
Defined.

(** X3.  [Agent.__init__] of [ddpg_agent.py]: a constructed agent has each
    target tensor equal to the local one at the same position (actor and
    critic), optimisers over exactly the local networks' parameters, one
    noise process per agent, each starting at its mean, an empty buffer and
    the exploration rate [eps_max]. *)
Theorem ddpg_agent_init_post `{Approximators} c p g a :
  DDPGAgent.Agent_init c p g = Ok a ->
  (forall k t l, nth_error (actor_target (DDPGAgent.nets a)) k = Some t ->
     nth_error (actor_local (DDPGAgent.nets a)) k = Some l ->
     get (params (DDPGAgent.nets a)) t = get (params (DDPGAgent.nets a)) l) /\
  (forall k t l, nth_error (critic_target (DDPGAgent.nets a)) k = Some t ->
     nth_error (critic_local (DDPGAgent.nets a)) k = Some l ->
     get (params (DDPGAgent.nets a)) t = get (params (DDPGAgent.nets a)) l) /\
  nets_wf (DDPGAgent.nets a) /\
  length (DDPGAgent.noise a) = Z.to_nat (DDPGAgent.cfg_num_agents c) /\
  Forall (fun o => ou_state o = ou_mu o) (DDPGAgent.noise a) /\
  rb_memory (DDPGAgent.memory a) = [] /\
  DDPGAgent.eps a = DDPGAgent.cfg_eps_max c.
Proof.
  intros E. destruct (DDPGAgent_init_targets_aligned c p g a E) as [A1 A2].
  split; [exact A1 | split; [exact A2 |]].
  revert E. unfold DDPGAgent.Agent_init.
  destruct (build_nets _ _ _ _ _ _ g) as [[n g']|] eqn:Eb; cbn [bind]; [| discriminate].
  pose proof (build_nets_wf _ _ _ _ _ _ _ _ _ Eb) as Hwf.
  destruct (mapM _ _) as [ns|] eqn:Ens; [| discriminate]. cbn [bind].
  apply mapM_const_ok in Ens as [Hl HF]. rewrite length_seq in Hl.
  unfold ReplayBuffer_init. cbn [bind].
  intros E. injection E as <-. simpl.
  split; [| split; [exact Hl | split; [| split; reflexivity]]].
  - apply nets_wf_set_params; [exact Hwf |].
    unfold hard_update. rewrite !length_hard_update_slots. reflexivity.
  - eapply Forall_impl; [| exact HF]. intros o Ho. eapply OUNoise_init_reset. exact Ho.
Qed.

Lemma ddpg_agent_init_post_witness :
  exists a, @DDPGAgent.Agent_init toy_approximators config_tau1 0 0 = Ok a /\
    length (DDPGAgent.noise a) = 1%nat /\ DDPGAgent.eps a = 1.
Proof.
  eexists. split; [reflexivity |].
  destruct (@ddpg_agent_init_post toy_approximators config_tau1 0 0 _ eq_refl)
    as [_ [_ [_ [Hl [_ [_ He]]]]]].
  split; [exact Hl | exact He].
Defined.

(** X4.  The exploration rate of [ddpg_agent.py]: with a non-negative
    [eps_decay], after [k >= 1] learning phases
    [eps = max(eps0 - k * eps_decay, eps_min)]; in particular it never falls
    below [eps_min]. *)
Theorem eps_decay_after_learning `{Approximators} `{PyRandom} (k : nat) (a a' : DDPGAgent.Agent) :
  DDPGAgent.learn_updates k a = Ok a' -> (0 < k)%nat ->
  0 <= DDPGAgent.cfg_eps_decay (DDPGAgent.cfg a) ->
  DDPGAgent.eps a' ==
    Qmax (DDPGAgent.eps a - inject_Z (Z.of_nat k) * DDPGAgent.cfg_eps_decay (DDPGAgent.cfg a))
         (DDPGAgent.cfg_eps_min (DDPGAgent.cfg a)) /\
  DDPGAgent.cfg_eps_min (DDPGAgent.cfg a) <= DDPGAgent.eps a'.
Proof.
  destruct k as [|k]; [lia |]. intros E _ Hd.
  destruct (DDPGAgent_learn_updates_eps k a a' E Hd) as [_ Ee].
  split; [exact Ee |]. rewrite Ee. apply Q.le_max_r.
Qed.

Lemma eps_decay_after_learning_witness :
  exists a', @DDPGAgent.learn_updates toy_approximators toy_random 2 agent_small_buffer = Ok a' /\
    DDPGAgent.eps a' ==
      Qmax (1 - inject_Z 2 * (1#4)) (1#10).
Proof.
  eexists. split; [reflexivity |].
  apply (@eps_decay_after_learning toy_approximators toy_random 2 agent_small_buffer);
    [reflexivity | lia | unfold Qle; simpl; lia].
Defined.

(** X5.  [OUNoise.sample] draws [random.random()] in [[0, 1)], so the noise
    is one-sided: with [0 < theta <= 1] and [sigma >= 0], after [reset()]
    and any number of samples every coordinate of the state (the returned
    sample) lies in [[mu, mu + sigma / theta]], never below the mean. *)
Theorem ou_noise_bounded `{PyRandom} (o : OUNoise) (p k : nat) :
  0 < ou_theta o <= 1 -> 0 <= ou_sigma o ->
  Forall2 (fun m y => m <= y <= m + ou_sigma o / ou_theta o)
          (ou_mu o) (ou_state (fst (ou_sample_n k (ou_reset o) p))).
Proof.
  intros Ht Hs.
  apply (ou_bounded_gen k (ou_reset o) p Ht Hs). destruct o as [mu t sg x]; simpl in *.
  induction mu as [|m mu IH]; constructor; [| exact IH].
  split; [apply Qle_refl |].
  assert (0 <= sg / t) by (apply Qle_shift_div_l; [apply Ht | rewrite Qmult_0_l; exact Hs]).
  lra.
Qed.

Lemma ou_noise_bounded_witness :
  0 < 1#2 <= 1 /\ 0 <= 1#5 /\
  Forall2 (fun m y => m <= y <= m + (1#5) / (1#2))
    [0; 1] (ou_state (fst (@ou_sample_n toy_random 3 (ou_reset (mkOUNoise [0; 1] (1#2) (1#5) [])) 4))).
Proof.
  assert (H1 : 0 < 1#2 <= 1) by (split; unfold Qlt, Qle; simpl; lia).
  assert (H2 : 0 <= 1#5) by (unfold Qle; simpl; lia).
  split; [exact H1 | split; [exact H2 |]].
  exact (@ou_noise_bounded toy_random (mkOUNoise [0; 1] (1#2) (1#5) []) 4 3 H1 H2).
Defined.

(** X6.  Without diffusion ([sigma = 0]) each [OUNoise.sample] shrinks the
    distance to the mean by the factor [1 - theta]: after [k] samples each
    coordinate is [mu + (1 - theta)^k * (x0 - mu)]. *)
Theorem ou_noise_contracts `{PyRandom} (o : OUNoise) (p k : nat) :
  ou_sigma o == 0 -> length (ou_state o) = length (ou_mu o) ->
  Forall2 Qeq (ou_state (fst (ou_sample_n k o p)))
    (map (fun '(m, x) => m + (1 - ou_theta o) ^ Z.of_nat k * (x - m))
         (combine (ou_mu o) (ou_state o))).
Proof.
  revert o p. induction k as [|k IH]; intros [mu t sg x] p Hs Hl; simpl in Hs, Hl |- *.
  - apply ou_contract_zero; [reflexivity | exact Hl].
  - set (st := vadd x (vadd (vscale t (vsub mu x))
                            (vscale sg (map random_float (seq p (length x)))))).
    assert (Hst : length st = length mu).
    { unfold st. rewrite !length_vadd, !length_vscale, length_vsub, length_map, length_seq. lia. }
    eapply Forall2_Qeq_trans; [exact (IH (mkOUNoise mu t sg st) _ Hs Hst) |]. simpl.
    apply ou_contract_step; [exact Hs | | exact Hl | rewrite length_map, length_seq; reflexivity].
    change (Qpower_positive (1 - t) (Pos.of_succ_nat k)) with ((1 - t) ^ Z.of_nat (S k)).
    replace (Z.of_nat (S k)) with (Z.of_nat k + 1)%Z by lia.
    rewrite Qpower_plus' by lia. rewrite Qpower_1_r. reflexivity.
Qed.

Lemma ou_noise_contracts_witness :
  0 == 0 /\ length [3; 5] = length [1; 1] /\
  Forall2 Qeq (ou_state (fst (@ou_sample_n toy_random 2 (mkOUNoise [1; 1] (1#2) 0 [3; 5]) 0)))
    (map (fun '(m, x) => m + (1 - (1#2)) ^ Z.of_nat 2 * (x - m)) (combine [1; 1] [3; 5])).
Proof.
  split; [reflexivity | split; [reflexivity |]].
  exact (@ou_noise_contracts toy_random (mkOUNoise [1; 1] (1#2) 0 [3; 5]) 0 2 (Qeq_refl 0) eq_refl).
Defined.

(** X7.  A learning phase of [step] that raises (in [random.sample] or in
    [np.vstack]) does so before [self.learn]: the agent keeps exactly the
    effects of the phases before it (its networks, and in [ddpg_agent.py] its
    exploration rate, are those after [j] complete phases), and its buffer
    and noise are untouched.  For a buffer whose transitions have stackable
    widths and a batch size in [1 .. len(memory)], no phase raises. *)
Theorem learn_loop_exceptions `{Approximators} `{PyRandom} :
  (forall k a a' e, DDPGAgent.learn_loop k a = (a', Some e) ->
     exists j a'', (j < k)%nat /\ DDPGAgent.learn_updates j a = Ok a'' /\
       DDPGAgent.nets a' = DDPGAgent.nets a'' /\ DDPGAgent.eps a' = DDPGAgent.eps a'' /\
       DDPGAgent.memory a' = DDPGAgent.memory a /\ DDPGAgent.noise a' = DDPGAgent.noise a) /\
  (forall k a, batch_uniform (rb_memory (DDPGAgent.memory a)) = true ->
     (0 < rb_batch_size (DDPGAgent.memory a))%Z ->
     (rb_batch_size (DDPGAgent.memory a) <= rb_len (DDPGAgent.memory a))%Z ->
     snd (DDPGAgent.learn_loop k a) = None) /\
  (forall k a a' e, DDPGAgentUpdated.learn_loop k a = (a', Some e) ->
     exists j a'', (j < k)%nat /\ DDPGAgentUpdated.learn_updates j a = Ok a'' /\
       DDPGAgentUpdated.nets a' = DDPGAgentUpdated.nets a'' /\
       DDPGAgentUpdated.memory a' = DDPGAgentUpdated.memory a /\
       DDPGAgentUpdated.noise a' = DDPGAgentUpdated.noise a) /\
  (forall k a, batch_uniform (rb_memory (DDPGAgentUpdated.memory a)) = true ->
     (0 < rb_batch_size (DDPGAgentUpdated.memory a))%Z ->
     (rb_batch_size (DDPGAgentUpdated.memory a) <= rb_len (DDPGAgentUpdated.memory a))%Z ->
     snd (DDPGAgentUpdated.learn_loop k a) = None).
Proof.
  split; [| split; [| split]].
  - induction k as [|k IH]; intros a a' e E; [discriminate |].
    simpl in E. unfold rb_sample.
    destruct (random_sample _ _ _ _) as [[es p']|e0] eqn:Er.
    + destruct (stack_experiences es) as [bt|e0] eqn:Es.
      * destruct (IH _ _ _ E) as [j [a'' [Hj [Hu [Hn [He [Hm Hz]]]]]]].
        exists (S j), a''. split; [lia |]. split.
        { simpl. unfold rb_sample. rewrite Er. cbn [bind]. rewrite Es. exact Hu. }
        split; [exact Hn | split; [exact He | split; [exact Hm | exact Hz]]].
      * injection E as <- _. exists 0%nat, a. repeat split; lia.
    + injection E as <- _. exists 0%nat, a. repeat split; lia.
  - induction k as [|k IH]; intros a Hu Hk0 Hkn; [reflexivity |].
    destruct (sample_stack_ok (DDPGAgent.memory a) (DDPGAgent.rng a) Hu Hk0 Hkn)
      as [es [p' [bt [Er Es]]]].
    simpl. rewrite Er, Es. apply IH; assumption.
  - induction k as [|k IH]; intros a a' e E; [discriminate |].
    simpl in E. unfold rb_sample.
    destruct (random_sample _ _ _ _) as [[es p']|e0] eqn:Er.
    + destruct (stack_experiences es) as [bt|e0] eqn:Es.
      * destruct (IH _ _ _ E) as [j [a'' [Hj [Hu [Hn [Hm Hz]]]]]].
        exists (S j), a''. split; [lia |]. split.
        { simpl. unfold rb_sample. rewrite Er. cbn [bind]. rewrite Es. exact Hu. }
        split; [exact Hn | split; [exact Hm | exact Hz]].
      * injection E as <- _. exists 0%nat, a. repeat split; lia.
    + injection E as <- _. exists 0%nat, a. repeat split; lia.
  - induction k as [|k IH]; intros a Hu Hk0 Hkn; [reflexivity |].
    destruct (sample_stack_ok (DDPGAgentUpdated.memory a) (DDPGAgentUpdated.rng a) Hu Hk0 Hkn)
      as [es [p' [bt [Er Es]]]].
    simpl. rewrite Er, Es. apply IH; assumption.
Qed.

Lemma learn_loop_exceptions_witness :
  snd (@DDPGAgent.learn_loop toy_approximators toy_random 2%nat agent_small_buffer) = None.
Proof.
  apply (proj1 (proj2 (@learn_loop_exceptions toy_approximators toy_random)) 2%nat agent_small_buffer);
    first [vm_compute; reflexivity | unfold rb_len; simpl; lia].
Defined.

(** X8.  [ReplayBuffer.add] of [ddpg_agent.py]: given fewer rows than
    [num_agents] it raises [IndexError]; otherwise the buffer holds the last
    [maxlen] items of its old contents followed by the first [num_agents]
    rows, in order. *)
Theorem replay_add_window (b : ReplayBuffer) (exps : list Experience) :
  (0 <= rb_maxlen b)%Z -> (Z.of_nat (length (rb_memory b)) <= rb_maxlen b)%Z ->
  DDPGAgent.add b exps =
    if (length exps <? Z.to_nat (rb_num_agents b))%nat then Err IndexError
    else Ok (rb_set_memory b (lastn (Z.to_nat (rb_maxlen b))
               (rb_memory b ++ firstn (Z.to_nat (rb_num_agents b)) exps))).
Proof.
  intros H0 Hl. unfold DDPGAgent.add.
  destruct (Nat.ltb_spec (length exps) (Z.to_nat (rb_num_agents b))) as [Hlt | Hge].
  - unfold agent_rows. rewrite mapM_rows_err by lia. reflexivity.
  - rewrite agent_rows_ok by exact Hge. cbn [bind].
    rewrite fold_rb_append_set, deque_extend_lastn by assumption. reflexivity.
Qed.

Lemma replay_add_window_witness :
  (0 <= 2)%Z /\ (Z.of_nat (length [experience0; experience0]) <= 2)%Z /\
  DDPGAgent.add (mkReplayBuffer 1 [experience0; experience0] 2 1 2)
                [mkExperience [1] [0] 1 [2] true] = Err IndexError.
Proof.
  assert (H1 : (0 <= 2)%Z) by lia.
  assert (H2 : (Z.of_nat (length [experience0; experience0]) <= 2)%Z) by (simpl; lia).
  split; [exact H1 | split; [exact H2 |]].
  rewrite (replay_add_window (mkReplayBuffer 1 [experience0; experience0] 2 1 2) _ H1 H2).
  reflexivity.
Defined.

(** X9.  [Agent.act] of [ddpg_agent_updated.py] writes the actor's rows into
    [np.zeros((num_agents, action_size))]: given more states than agents it
    raises [IndexError]; otherwise it returns exactly [num_agents] rows and,
    without noise, row [i] is the clipped actor output for state [i] when
    there is one and a zero row of width [action_size] when there is not
    (for actor outputs of width [action_size], as the row assignment needs). *)
Theorem act_updated_rows `{Approximators} `{PyRandom} (a : DDPGAgentUpdated.Agent)
    (st : list (list Q)) (b : bool) :
  (0 <= DDPGAgentUpdated.num_agents a)%Z -> (0 <= DDPGAgentUpdated.action_size a)%Z ->
  (forall row, In row st ->
     length (actor_forward (net_params (params (DDPGAgentUpdated.nets a))
                                       (actor_local (DDPGAgentUpdated.nets a))) row)
     = Z.to_nat (DDPGAgentUpdated.action_size a)) ->
  ((Z.to_nat (DDPGAgentUpdated.num_agents a) < length st)%nat ->
     DDPGAgentUpdated.act a st b = Err IndexError) /\
  ((length st <= Z.to_nat (DDPGAgentUpdated.num_agents a))%nat ->
     exists rows a', DDPGAgentUpdated.act a st b = Ok (rows, a') /\
       length rows = Z.to_nat (DDPGAgentUpdated.num_agents a) /\
       (b = false ->
          (forall i, (i < length st)%nat ->
             nth i rows [] =
               map (np_clip (-1) 1)
                 (actor_forward (net_params (params (DDPGAgentUpdated.nets a))
                                            (actor_local (DDPGAgentUpdated.nets a))) (nth i st []))) /\
          (forall i, (length st <= i < Z.to_nat (DDPGAgentUpdated.num_agents a))%nat ->
             nth i rows [] = repeat 0 (Z.to_nat (DDPGAgentUpdated.action_size a))))).
Proof.
  intros Hn Ha _. unfold DDPGAgentUpdated.act, DDPGAgentUpdated.actor_rows.
  replace ((DDPGAgentUpdated.num_agents a <? 0)%Z || (DDPGAgentUpdated.action_size a <? 0)%Z)%bool
    with false by (symmetry; apply orb_false_iff; split; apply Z.ltb_ge; lia).
  set (f := actor_forward (net_params (params (DDPGAgentUpdated.nets a))
                                      (actor_local (DDPGAgentUpdated.nets a)))).
  set (n := Z.to_nat (DDPGAgentUpdated.num_agents a)).
  set (w := Z.to_nat (DDPGAgentUpdated.action_size a)).
  split.
  - intros Hlt. destruct (Nat.ltb_spec n (length st)); [reflexivity | lia].
  - intros Hle. destruct (Nat.ltb_spec n (length st)); [lia |]. cbn [bind].
    assert (Hlen : length (map f st ++ repeat (repeat 0 w) (n - length st)) = n).
    { rewrite length_app, length_map, repeat_length. lia. }
    destruct b.
    + destruct (ou_sample _ _) as [[v o'] p'].
      do 2 eexists. split; [reflexivity |].
      split; [rewrite !length_map; exact Hlen | discriminate].
    + do 2 eexists. split; [reflexivity |].
      split; [rewrite length_map; exact Hlen |]. intros _.
      assert (Hnth : forall (l : list (list Q)) i,
                 nth i (map (map (np_clip (-1) 1)) l) [] = map (np_clip (-1) 1) (nth i l [])).
      { induction l as [| r l IH]; intros [| i]; simpl; auto. }
      split.
      * intros i Hi. rewrite Hnth.
        rewrite app_nth1 by (rewrite length_map; exact Hi).
        f_equal. rewrite nth_indep with (d' := f []) by (rewrite length_map; exact Hi). apply map_nth.
      * intros i Hi. rewrite Hnth.
        rewrite app_nth2 by (rewrite length_map; lia).
        rewrite nth_repeat_lt by (rewrite length_map; lia).
        rewrite map_repeat. reflexivity.
Qed.

Lemma act_updated_rows_witness :
  exists a, @DDPGAgentUpdated.Agent_init toy_approximators config_updated_two_agents 1 0 = Ok a /\
    exists rows a', @DDPGAgentUpdated.act toy_approximators toy_random a [[1#2]] false = Ok (rows, a') /\
      length rows = 2%nat.
Proof.
  eexists. split; [reflexivity |].
  match goal with |- exists rows a', DDPGAgentUpdated.act ?ag _ _ = _ /\ _ =>
    destruct (@act_updated_rows toy_approximators toy_random ag [[1#2]] false) as [_ H2] end.
  - vm_compute. discriminate.
  - vm_compute. discriminate.
  - intros row [<- | []]. reflexivity.
  - destruct (H2 ltac:(vm_compute; lia)) as [rows [a' [E [Hl _]]]].
    exists rows, a'. split; [exact E | exact Hl].
Defined.

(** X10.  [np.clip(action, -1, 1)] in [Agent.act] of [ddpg_agent.py]: without
    noise, actor outputs already in [[-1, 1]] are returned unchanged;
    coordinates at or beyond a bound are saturated to it. *)
Theorem act_clip_in_range `{Approximators} `{PyRandom} (a : DDPGAgent.Agent) (st : list (list Q)) :
  (forall row, In row st ->
     Forall (fun x => -1 <= x <= 1)
       (actor_forward (net_params (params (DDPGAgent.nets a)) (actor_local (DDPGAgent.nets a))) row)) ->
  fst (DDPGAgent.act a st false) =
    map (actor_forward (net_params (params (DDPGAgent.nets a)) (actor_local (DDPGAgent.nets a)))) st /\
  (forall x, 1 <= x -> np_clip (-1) 1 x == 1) /\
  (forall x, x <= -1 -> np_clip (-1) 1 x == -1).
Proof.
  intros Hr. split; [| split; intros x; apply np_clip_saturate].
  unfold DDPGAgent.act. simpl. rewrite map_map.
  apply map_ext_in. intros row Hrow.
  transitivity (map (fun x => x) (actor_forward (net_params (params (DDPGAgent.nets a))
                                                  (actor_local (DDPGAgent.nets a))) row));
    [| apply map_id].
  apply map_ext_in. intros x Hx. apply np_clip_id.
  apply (proj1 (Forall_forall _ _) (Hr row Hrow)). exact Hx.
Qed.

Lemma act_clip_in_range_witness :
  exists a, @DDPGAgent.Agent_init toy_approximators config_tau1 0 0 = Ok a /\
    fst (@DDPGAgent.act toy_approximators toy_random a [[1#2; -1#3]] false) = [[1#2; -1#3]].
Proof.
  eexists. split; [reflexivity |].
  match goal with |- fst (DDPGAgent.act ?ag _ _) = _ =>
    apply (@act_clip_in_range toy_approximators toy_random ag [[1#2; -1#3]]) end.
  intros row [<- | []]. simpl.
  repeat constructor; unfold Qle; simpl; lia.
Defined.

(** X11.  [Agent.reset] after [Agent.act]: sampling never changes a noise
    process's [mu], [theta] or [sigma], so resetting after acting (with or
    without noise) yields the same noise processes as resetting before,
    each with its state equal to its mean; in both files. *)
Theorem reset_after_act `{Approximators} `{PyRandom} :
  (forall a st b,
     DDPGAgent.noise (DDPGAgent.reset (snd (DDPGAgent.act a st b))) =
       DDPGAgent.noise (DDPGAgent.reset a) /\
     Forall (fun o => ou_state o = ou_mu o) (DDPGAgent.noise (DDPGAgent.reset a))) /\
  (forall a st b,
     match DDPGAgentUpdated.act a st b with
     | Ok r => DDPGAgentUpdated.noise (DDPGAgentUpdated.reset (snd r)) =
                 DDPGAgentUpdated.noise (DDPGAgentUpdated.reset a)
     | Err _ => True
     end /\
     ou_state (DDPGAgentUpdated.noise (DDPGAgentUpdated.reset a)) =
       ou_mu (DDPGAgentUpdated.noise (DDPGAgentUpdated.reset a))).
Proof.
  split.
  - intros a st b. split.
    + unfold DDPGAgent.act, DDPGAgent.reset. destruct b; [| reflexivity].
      pose proof (add_noise_loop_reset (DDPGAgent.noise a)
                    (map (actor_forward (net_params (params (DDPGAgent.nets a))
                                                    (actor_local (DDPGAgent.nets a)))) st)
                    (DDPGAgent.rng a)) as E.
      destruct (DDPGAgent.add_noise_loop _ _ _) as [[act' ns'] p']. exact E.
    + simpl. apply Forall_forall. intros o Ho. apply in_map_iff in Ho as [o0 [<- _]].
      reflexivity.
  - intros a st b. split; [| reflexivity].
    unfold DDPGAgentUpdated.act. destruct (DDPGAgentUpdated.actor_rows a st); cbn [bind]; [| exact I].
    destruct b; [| reflexivity].
    pose proof (ou_reset_sample (DDPGAgentUpdated.noise a) (DDPGAgentUpdated.rng a)) as E.
    destruct (ou_sample _ _) as [[v o'] p']. simpl in *. rewrite E. reflexivity.
Qed.
